(** * DynamicDispatcher: the kernel dispatch registry of lightning_qubit

    A shallow embedding of
    [pennylane_lightning/core/src/simulators/lightning_qubit/gates/DynamicDispatcher.hpp]
    and the properties of its registration and dispatch functions.

    Conventions of the embedding.
    - [std::unordered_map] is a [gmap]; [find]/[contains] are lookups,
      [at] is a lookup that throws [std::out_of_range], [emplace] inserts
      only when the key is free.
    - [size_t] values are sizes and indices of vectors; they are [nat].
      The only arithmetic the file performs on them is [2 * wires.size()].
    - A C++ call may return, throw, stop the process or have no defined
      behaviour; [outcome] records which.  Functions that touch the state
      vector run in the monad [M] over the mutable store.
    - C++ overloads get distinct names: the first overload in the file keeps
      the source name, the second one carries a suffix. *)

From stdpp Require Import gmap strings list fin_maps.

(** ** Exceptions and outcomes *)

(** The two exception classes the file raises.  [std::invalid_argument]
    carries the message given at the [throw]; [std::out_of_range] comes from
    [unordered_map::at] and [string_view::substr], whose message is left to
    the standard library. *)
Inductive exception : Type :=
| invalid_argument (what : string)
| out_of_range.

Inductive outcome (A : Type) : Type :=
| Returned (a : A)
| Thrown (e : exception)
| Aborted
| Undefined.

Arguments Returned {A} a.
Arguments Thrown {A} e.
Arguments Aborted {A}.
Arguments Undefined {A}.

Definition is_failure {A} (r : outcome A) : Prop :=
  match r with Returned _ => False | _ => True end.

#[global] Instance outcome_ret : MRet outcome := λ A a, Returned a.

#[global] Instance outcome_bind : MBind outcome := λ A B k r,
  match r with
  | Returned a => k a
  | Thrown e => Thrown e
  | Aborted => Aborted
  | Undefined => Undefined
  end.

(** ** Containers *)

(** [unordered_map::emplace]: the element is constructed only if no element
    with the key exists. *)
Definition emplace `{Countable K} {V} (k : K) (v : V) (m : gmap K V) : gmap K V :=
  if decide (is_Some (m !! k)) then m else <[k := v]> m.

(** [unordered_map::at]. *)
Definition map_at `{Countable K} {V} (m : gmap K V) (k : K) : outcome V :=
  match m !! k with
  | Some v => Returned v
  | None => Thrown out_of_range
  end.

(** [vector::operator[]]: no bounds check, reading past the end is
    undefined. *)
Definition index {A} (v : list A) (i : nat) : outcome A :=
  match v !! i with
  | Some x => Returned x
  | None => Undefined
  end.

(** [string_view::substr(pos)]: the suffix from [pos], or
    [std::out_of_range] when [pos > size()]. *)
Fixpoint string_suffix (pos : nat) (s : string) : string :=
  match pos, s with
  | 0, _ => s
  | S p, String _ s' => string_suffix p s'
  | S _, EmptyString => EmptyString
  end.

Definition substr (s : string) (pos : nat) : outcome string :=
  if decide (pos ≤ String.length s) then Returned (string_suffix pos s)
  else Thrown out_of_range.

(** ** Matrix operations *)

(** The three enumerators of [MatrixOperation] that [applyMatrix] names. *)
Inductive MatrixOperation : Type :=
| SingleQubitOp
| TwoQubitOp
| MultiQubitOp.

#[global] Instance MatrixOperation_eq_dec : EqDecision MatrixOperation.
Proof. solve_decision. Defined.

#[global] Instance MatrixOperation_countable : Countable MatrixOperation.
Proof.
  refine (inj_countable'
    (λ o, match o with SingleQubitOp => 0 | TwoQubitOp => 1 | MultiQubitOp => 2 end)
    (λ n, match n with 0 => SingleQubitOp | 1 => TwoQubitOp | _ => MultiQubitOp end) _).
  by intros [].
Defined.

(** Modelled from the spec: [Pennylane::Util::exp2] ([Util.hpp] is not part
    of this file).  The specification reads the check of [applyMatrix] as a
    comparison with [4^(wires.length)], so [exp2 n] is the power of two. *)
Definition exp2 (n : nat) : nat := 2 ^ n.

Section Dispatcher.

(** Enumerations declared in [GateIndices.hpp] and [KernelType.hpp]; the
    dispatcher uses them as hash-map keys only. *)
Context {GateOperation GeneratorOperation KernelType : Type}.
Context `{Countable GateOperation, Countable GeneratorOperation,
          Countable KernelType}.

(** [PrecisionT] is the floating-point template parameter; the dispatcher
    passes such values through and never computes with them. *)
Context {PrecisionT : Type}.

(** [mem] is the mutable store a callable may write: the state-vector
    buffer and anything else it reaches.  [CFP_ptr] is the type of the
    [data] pointer into it. *)
Context {CFP_ptr mem : Type}.

(** [std::complex<PrecisionT>]. *)
Definition CFP_t : Type := PrecisionT * PrecisionT.

(** ** The monad of dispatch calls *)

Definition M (A : Type) : Type := mem → outcome A * mem.

#[global] Instance M_ret : MRet M := λ A a s, (Returned a, s).

#[global] Instance M_bind : MBind M := λ A B k m s,
  match m s with
  | (Returned a, s') => k a s'
  | (Thrown e, s') => (Thrown e, s')
  | (Aborted, s') => (Aborted, s')
  | (Undefined, s') => (Undefined, s')
  end.

(** A computation that does not touch the store. *)
Definition lift {A} (r : outcome A) : M A := λ s, (r, s).

Definition throw {A} (e : exception) : M A := lift (Thrown e).

(** Modelled from the spec: [PL_ASSERT] ([Error.hpp] is not part of this
    file).  The specification describes a failed assertion as fatal: the
    call terminates abnormally and reports no recoverable error. *)
Definition PL_ASSERT (cond : bool) : M unit :=
  if cond then mret () else lift Aborted.

(** [for (size_t i = start; i < start + count; i++) body(i);] *)
Fixpoint for_range (start count : nat) (body : nat → M unit) : M unit :=
  match count with
  | 0 => mret ()
  | S c => _ ← body start; for_range (S start) c body
  end.

(** [runs_upto body i s s']: the calls [body 0], ..., [body (i - 1)], made
    in this order from the store [s], all return and leave the store [s']. *)
Inductive runs_upto (body : nat → M unit) : nat → mem → mem → Prop :=
| runs_upto_O s : runs_upto body 0 s s
| runs_upto_S i s s' s'' :
    runs_upto body i s s' →
    body i s' = (Returned (), s'') →
    runs_upto body (S i) s s''.

(** ** Callables *)

Definition GateFunc : Type :=
  CFP_ptr → nat → list nat → bool → list PrecisionT → M unit.

Definition GeneratorFunc : Type :=
  CFP_ptr → nat → list nat → bool → M PrecisionT.

(** The matrix argument is a pointer to constant data; it is modelled by
    the sequence it points to. *)
Definition MatrixFunc : Type :=
  CFP_ptr → nat → list CFP_t → list nat → bool → M unit.

(** ** The dispatcher state *)

Record DynamicDispatcher : Type := mkDynamicDispatcher {
  str_to_gates_ : gmap string GateOperation;
  str_to_gntrs_ : gmap string GeneratorOperation;
  gate_kernels_ : gmap (GateOperation * KernelType) GateFunc;
  generator_kernels_ : gmap (GeneratorOperation * KernelType) GeneratorFunc;
  matrix_kernels_ : gmap (MatrixOperation * KernelType) MatrixFunc;
  kernel_names_ : gmap KernelType string;
}.

(** ** The operation catalogue

    [Constant.hpp] is not part of this file.  Its tables are parameters:
    [gate_names] and [generator_names] are the arrays of
    (enumerator, name) pairs, [matrix_name op] is what
    [lookup(GateConstant::matrix_names, op)] yields. *)
Context (gate_names : list (GateOperation * string)).
Context (generator_names : list (GeneratorOperation * string)).
Context (matrix_name : MatrixOperation → string).

Definition prefix : string := "Generator".

(** [Internal::generatorNamesWithoutPrefix] (lines 53-65), for a table
    [names]: every name loses its first [prefix.size()] characters. *)
Fixpoint strip_prefixes (names : list (GeneratorOperation * string))
    : outcome (list (GeneratorOperation * string)) :=
  match names with
  | [] => mret []
  | (gntr_op, gntr_name) :: rest =>
      bare ← substr gntr_name (String.length prefix);
      res ← strip_prefixes rest;
      mret ((gntr_op, bare) :: res)
  end.

Definition generatorNamesWithoutPrefix
    : outcome (list (GeneratorOperation * string)) :=
  strip_prefixes generator_names.

(** The two loops of the constructor (lines 114-119). *)
Definition emplace_names {Op} (names : list (Op * string))
    (m : gmap string Op) : gmap string Op :=
  foldl (λ acc entry, emplace entry.2 entry.1 acc) m names.

(** The constructor (lines 110-120).  [gntr_names_without_prefix] is a
    [constexpr] value: an exception while it is computed rejects the
    program, which the outcome of the constructor reports. *)
Definition DynamicDispatcher_ctor : outcome DynamicDispatcher :=
  gntr_names_without_prefix ← generatorNamesWithoutPrefix;
  mret {| str_to_gates_ := emplace_names gate_names ∅;
          str_to_gntrs_ := emplace_names gntr_names_without_prefix ∅;
          gate_kernels_ := ∅;
          generator_kernels_ := ∅;
          matrix_kernels_ := ∅;
          kernel_names_ := ∅ |}.

(** ** Kernel names (lines 140-174) *)

(** The iteration order of an [unordered_map] is unspecified; the model
    returns the keys in the order of [map_to_list], and only facts that do
    not depend on the order are stated about it. *)
Definition registeredKernels (d : DynamicDispatcher) : list KernelType :=
  (map_to_list (kernel_names_ d)).*1.

Definition isRegisteredKernel (d : DynamicDispatcher) (kernel : KernelType) : bool :=
  bool_decide (is_Some (kernel_names_ d !! kernel)).

Definition registerKernelName (kernel : KernelType) (name : string)
    (d : DynamicDispatcher) : DynamicDispatcher :=
  {| str_to_gates_ := str_to_gates_ d;
     str_to_gntrs_ := str_to_gntrs_ d;
     gate_kernels_ := gate_kernels_ d;
     generator_kernels_ := generator_kernels_ d;
     matrix_kernels_ := matrix_kernels_ d;
     kernel_names_ := emplace kernel name (kernel_names_ d) |}.

Definition getKernelName (d : DynamicDispatcher) (kernel : KernelType)
    : outcome string :=
  map_at (kernel_names_ d) kernel.

(** ** Introspection (lines 181-215) *)

Definition operations_for_kernel `{Countable Op} {F}
    (kernels : gmap (Op * KernelType) F) (kernel : KernelType) : gset Op :=
  map_fold (λ key _ ops, if decide (key.2 = kernel) then {[ key.1 ]} ∪ ops else ops)
           ∅ kernels.

Definition registeredGatesForKernel (d : DynamicDispatcher)
    (kernel : KernelType) : gset GateOperation :=
  operations_for_kernel (gate_kernels_ d) kernel.

Definition registeredGeneratorsForKernel (d : DynamicDispatcher)
    (kernel : KernelType) : gset GeneratorOperation :=
  operations_for_kernel (generator_kernels_ d) kernel.

Definition registeredMatricesForKernel (d : DynamicDispatcher)
    (kernel : KernelType) : gset MatrixOperation :=
  operations_for_kernel (matrix_kernels_ d) kernel.

(** ** Name translation (lines 222-244) *)

Definition strToGateOp (d : DynamicDispatcher) (gate_name : string)
    : outcome GateOperation :=
  map_at (str_to_gates_ d) gate_name.

Definition hasGateOp (d : DynamicDispatcher) (gate_name : string) : bool :=
  bool_decide (is_Some (str_to_gates_ d !! gate_name)).

Definition strToGeneratorOp (d : DynamicDispatcher) (gntr_name : string)
    : outcome GeneratorOperation :=
  map_at (str_to_gntrs_ d) gntr_name.

(** ** Registration (lines 250-275) *)

Definition registerGateOperation (gate_op : GateOperation)
    (kernel : KernelType) (func : GateFunc)
    (d : DynamicDispatcher) : DynamicDispatcher :=
  {| str_to_gates_ := str_to_gates_ d;
     str_to_gntrs_ := str_to_gntrs_ d;
     gate_kernels_ := emplace (gate_op, kernel) func (gate_kernels_ d);
     generator_kernels_ := generator_kernels_ d;
     matrix_kernels_ := matrix_kernels_ d;
     kernel_names_ := kernel_names_ d |}.

Definition registerGeneratorOperation (gntr_op : GeneratorOperation)
    (kernel : KernelType) (func : GeneratorFunc)
    (d : DynamicDispatcher) : DynamicDispatcher :=
  {| str_to_gates_ := str_to_gates_ d;
     str_to_gntrs_ := str_to_gntrs_ d;
     gate_kernels_ := gate_kernels_ d;
     generator_kernels_ := emplace (gntr_op, kernel) func (generator_kernels_ d);
     matrix_kernels_ := matrix_kernels_ d;
     kernel_names_ := kernel_names_ d |}.

Definition registerMatrixOperation (mat_op : MatrixOperation)
    (kernel : KernelType) (func : MatrixFunc)
    (d : DynamicDispatcher) : DynamicDispatcher :=
  {| str_to_gates_ := str_to_gates_ d;
     str_to_gntrs_ := str_to_gntrs_ d;
     gate_kernels_ := gate_kernels_ d;
     generator_kernels_ := generator_kernels_ d;
     matrix_kernels_ := emplace (mat_op, kernel) func (matrix_kernels_ d);
     kernel_names_ := kernel_names_ d |}.

(** [isRegistered], one overload per family (lines 284-311). *)
Definition isRegistered (d : DynamicDispatcher) (gate_op : GateOperation)
    (kernel : KernelType) : bool :=
  bool_decide (is_Some (gate_kernels_ d !! (gate_op, kernel))).

Definition isRegistered_gntr (d : DynamicDispatcher)
    (gntr_op : GeneratorOperation) (kernel : KernelType) : bool :=
  bool_decide (is_Some (generator_kernels_ d !! (gntr_op, kernel))).

Definition isRegistered_mat (d : DynamicDispatcher)
    (mat_op : MatrixOperation) (kernel : KernelType) : bool :=
  bool_decide (is_Some (matrix_kernels_ d !! (mat_op, kernel))).

(** ** Gate dispatch (lines 324-416) *)

Definition gate_kernel_missing : exception :=
  invalid_argument
    "Cannot find a registered kernel for a given gate and kernel pair".

(** [applyOperation], gate given by name (lines 324-336).  The argument
    of [find] is evaluated first, so [strToGateOp] may throw before the
    map is searched. *)
Definition applyOperation (d : DynamicDispatcher) (kernel : KernelType)
    (data : CFP_ptr) (num_qubits : nat) (op_name : string)
    (wires : list nat) (inverse : bool) (params : list PrecisionT) : M unit :=
  gate_op ← lift (strToGateOp d op_name);
  match gate_kernels_ d !! (gate_op, kernel) with
  | None => throw gate_kernel_missing
  | Some func => func data num_qubits wires inverse params
  end.

(** [applyOperation], gate given by enumerator (lines 349-360). *)
Definition applyOperation_op (d : DynamicDispatcher) (kernel : KernelType)
    (data : CFP_ptr) (num_qubits : nat) (gate_op : GateOperation)
    (wires : list nat) (inverse : bool) (params : list PrecisionT) : M unit :=
  match gate_kernels_ d !! (gate_op, kernel) with
  | None => throw gate_kernel_missing
  | Some func => func data num_qubits wires inverse params
  end.

Definition count_mismatch : exception :=
  invalid_argument
    "Invalid arguments: number of operations, wires, and parameters must all be equal".

(** The loop bodies of the two [applyOperations] overloads (lines 386-387
    and 413-414): the call on the [i]-th entry of every sequence. *)
Definition apply_nth (d : DynamicDispatcher) (kernel : KernelType)
    (data : CFP_ptr) (num_qubits : nat) (ops : list string)
    (wires : list (list nat)) (inverse : list bool)
    (params : list (list PrecisionT)) (i : nat) : M unit :=
  op ← lift (index ops i);
  w ← lift (index wires i);
  inv ← lift (index inverse i);
  p ← lift (index params i);
  applyOperation d kernel data num_qubits op w inv p.

Definition apply_nth_noparams (d : DynamicDispatcher) (kernel : KernelType)
    (data : CFP_ptr) (num_qubits : nat) (ops : list string)
    (wires : list (list nat)) (inverse : list bool) (i : nat) : M unit :=
  op ← lift (index ops i);
  w ← lift (index wires i);
  inv ← lift (index inverse i);
  applyOperation d kernel data num_qubits op w inv [].

(** [applyOperations] with parameters (lines 372-389). *)
Definition applyOperations (d : DynamicDispatcher) (kernel : KernelType)
    (data : CFP_ptr) (num_qubits : nat) (ops : list string)
    (wires : list (list nat)) (inverse : list bool)
    (params : list (list PrecisionT)) : M unit :=
  let numOperations := length ops in
  if bool_decide (numOperations ≠ length wires)
     || bool_decide (numOperations ≠ length params)
  then throw count_mismatch
  else
    for_range 0 numOperations
      (apply_nth d kernel data num_qubits ops wires inverse params).

(** [applyOperations] without parameters (lines 401-416). *)
Definition applyOperations_noparams (d : DynamicDispatcher)
    (kernel : KernelType) (data : CFP_ptr) (num_qubits : nat)
    (ops : list string) (wires : list (list nat)) (inverse : list bool)
    : M unit :=
  let numOperations := length ops in
  if bool_decide (numOperations ≠ length wires)
  then throw count_mismatch
  else
    for_range 0 numOperations
      (apply_nth_noparams d kernel data num_qubits ops wires inverse).

(** ** Matrix dispatch (lines 428-473) *)

(** The lambda of lines 433-442. *)
Definition mat_op (n_wires : nat) : MatrixOperation :=
  match n_wires with
  | 1 => SingleQubitOp
  | 2 => TwoQubitOp
  | _ => MultiQubitOp
  end.

Definition matrix_kernel_missing (op : MatrixOperation) : exception :=
  invalid_argument (matrix_name op +:+ " is not registered for the given kernel").

(** [applyMatrix], matrix given by pointer (lines 428-452).  The asserted
    condition [num_qubits >= wires.size()] is written with [≤]. *)
Definition applyMatrix (d : DynamicDispatcher) (kernel : KernelType)
    (data : CFP_ptr) (num_qubits : nat) (matrix : list CFP_t)
    (wires : list nat) (inverse : bool) : M unit :=
  _ ← PL_ASSERT (bool_decide (length wires ≤ num_qubits));
  match matrix_kernels_ d !! (mat_op (length wires), kernel) with
  | None => throw (matrix_kernel_missing (mat_op (length wires)))
  | Some func => func data num_qubits matrix wires inverse
  end.

Definition matrix_size_mismatch : exception :=
  invalid_argument
    "The size of matrix does not match with the given number of wires".

(** [applyMatrix], matrix given as a vector (lines 464-473). *)
Definition applyMatrix_vec (d : DynamicDispatcher) (kernel : KernelType)
    (data : CFP_ptr) (num_qubits : nat) (matrix : list CFP_t)
    (wires : list nat) (inverse : bool) : M unit :=
  if bool_decide (length matrix ≠ exp2 (2 * length wires))
  then throw matrix_size_mismatch
  else applyMatrix d kernel data num_qubits matrix wires inverse.

(** ** Generator dispatch (lines 486-523) *)

Definition generator_kernel_missing : exception :=
  invalid_argument
    "Cannot find a registered kernel for a given generator and kernel pair.".

(** [applyGenerator], generator given by enumerator (lines 486-499). *)
Definition applyGenerator (d : DynamicDispatcher) (kernel : KernelType)
    (data : CFP_ptr) (num_qubits : nat) (gntr_op : GeneratorOperation)
    (wires : list nat) (adj : bool) : M PrecisionT :=
  match generator_kernels_ d !! (gntr_op, kernel) with
  | None => throw generator_kernel_missing
  | Some func => func data num_qubits wires adj
  end.

(** [applyGenerator], generator given by name (lines 511-523). *)
Definition applyGenerator_name (d : DynamicDispatcher) (kernel : KernelType)
    (data : CFP_ptr) (num_qubits : nat) (op_name : string)
    (wires : list nat) (adj : bool) : M PrecisionT :=
  gntr_op ← lift (strToGeneratorOp d op_name);
  match generator_kernels_ d !! (gntr_op, kernel) with
  | None => throw generator_kernel_missing
  | Some func => func data num_qubits wires adj
  end.

(** ** Start-up registrations

    The calls a kernel module may make while the registry is populated, and
    a sequence of them run in order. *)
Inductive registration : Type :=
| RegisterGate (gate_op : GateOperation) (kernel : KernelType) (func : GateFunc)
| RegisterGenerator (gntr_op : GeneratorOperation) (kernel : KernelType)
    (func : GeneratorFunc)
| RegisterMatrix (mat : MatrixOperation) (kernel : KernelType) (func : MatrixFunc)
| RegisterKernelName (kernel : KernelType) (name : string).

Definition register (r : registration) (d : DynamicDispatcher) : DynamicDispatcher :=
  match r with
  | RegisterGate gate_op kernel func => registerGateOperation gate_op kernel func d
  | RegisterGenerator gntr_op kernel func =>
      registerGeneratorOperation gntr_op kernel func d
  | RegisterMatrix mat kernel func => registerMatrixOperation mat kernel func d
  | RegisterKernelName kernel name => registerKernelName kernel name d
  end.

Definition register_all (rs : list registration) (d : DynamicDispatcher)
    : DynamicDispatcher :=
  foldl (λ acc r, register r acc) d rs.

End Dispatcher.

(** ** A small instance

    A catalogue of three gates and two generators, two kernels, and a store
    made of an amplitude buffer and a call counter.  The properties below
    are stated for every instance; this one is where they are evaluated. *)
Module Sample.

Inductive Gate : Type := PauliX | RX | CNOT.
Inductive Generator : Type := GeneratorRX | GeneratorCRX.
Inductive Kernel : Type := Reference | Vectorized.

#[global] Instance Gate_eq_dec : EqDecision Gate.
Proof. solve_decision. Defined.
#[global] Instance Generator_eq_dec : EqDecision Generator.
Proof. solve_decision. Defined.
#[global] Instance Kernel_eq_dec : EqDecision Kernel.
Proof. solve_decision. Defined.

#[global] Instance Gate_countable : Countable Gate.
Proof.
  refine (inj_countable'
    (λ g, match g with PauliX => 0 | RX => 1 | CNOT => 2 end)
    (λ n, match n with 0 => PauliX | 1 => RX | _ => CNOT end) _).
  by intros [].
Defined.

#[global] Instance Generator_countable : Countable Generator.
Proof.
  refine (inj_countable'
    (λ g, match g with GeneratorRX => 0 | GeneratorCRX => 1 end)
    (λ n, match n with 0 => GeneratorRX | _ => GeneratorCRX end) _).
  by intros [].
Defined.

#[global] Instance Kernel_countable : Countable Kernel.
Proof.
  refine (inj_countable'
    (λ k, match k with Reference => 0 | Vectorized => 1 end)
    (λ n, match n with 0 => Reference | _ => Vectorized end) _).
  by intros [].
Defined.

Definition gate_names : list (Gate * string) :=
  [(PauliX, "PauliX"); (RX, "RX"); (CNOT, "CNOT")].

Definition generator_names : list (Generator * string) :=
  [(GeneratorRX, "GeneratorRX"); (GeneratorCRX, "GeneratorCRX")].

Definition matrix_name (op : MatrixOperation) : string :=
  match op with
  | SingleQubitOp => "SingleQubitOp"
  | TwoQubitOp => "TwoQubitOp"
  | MultiQubitOp => "MultiQubitOp"
  end.

(** The store: the amplitudes behind the [data] pointer and a counter that
    every sample callable increments. *)
Record store : Type := mkStore { buffer : list (Z * Z); calls : nat }.

Abbreviation Dispatcher :=
  (@DynamicDispatcher Gate Generator Kernel _ _ _ _ _ _ Z unit store).
Abbreviation Registration :=
  (@registration Gate Generator Kernel Z unit store).

(** The registry right after construction. *)
Definition fresh : Dispatcher :=
  {| str_to_gates_ := emplace_names gate_names ∅;
     str_to_gntrs_ :=
       emplace_names [(GeneratorRX, "RX"); (GeneratorCRX, "CRX")] ∅;
     gate_kernels_ := ∅;
     generator_kernels_ := ∅;
     matrix_kernels_ := ∅;
     kernel_names_ := ∅ |}.

(** Reverses the amplitude order. *)
Definition flip : @GateFunc Z unit store :=
  λ _ _ _ _ _ s,
    (Returned (), {| buffer := reverse (buffer s); calls := S (calls s) |}).

(** Leaves the amplitudes alone. *)
Definition keep : @GateFunc Z unit store :=
  λ _ _ _ _ _ s, (Returned (), {| buffer := buffer s; calls := S (calls s) |}).

Definition scale (factor : Z) : @GeneratorFunc Z unit store :=
  λ _ _ _ _ s,
    (Returned factor, {| buffer := buffer s; calls := S (calls s) |}).

(** Writes its tag over the buffer, so that the callable that ran can be
    told from the store. *)
Definition stub (tag : Z) : @MatrixFunc Z unit store :=
  λ _ _ _ _ _ s,
    (Returned (), {| buffer := [(tag, 0%Z)]; calls := S (calls s) |}).

Definition s0 : store := {| buffer := [(1, 0); (0, 0)]%Z; calls := 0 |}.

Definition identity2 : list (Z * Z) := [(1, 0); (0, 0); (0, 0); (1, 0)]%Z.

(** [PauliX] registered under [Reference] with [flip], as in the
    specification's scenario. *)
Definition with_flip : Dispatcher :=
  registerGateOperation PauliX Reference flip fresh.

(** Registrations that come after the first ones and try to take their
    keys. *)
Definition late : list Registration :=
  [ RegisterGate PauliX Reference keep;
    RegisterGenerator GeneratorRX Reference (scale 2);
    RegisterMatrix SingleQubitOp Reference (stub 9);
    RegisterKernelName Reference "second name";
    RegisterGate CNOT Vectorized keep ].

(** The three matrix operations registered with three different stubs. *)
Definition with_stubs : Dispatcher :=
  register_all
    [ RegisterMatrix SingleQubitOp Reference (stub 1);
      RegisterMatrix TwoQubitOp Reference (stub 2);
      RegisterMatrix MultiQubitOp Reference (stub 3) ]
    fresh.

(** A catalogue in which two gates share a name and one generator name
    does not start with the prefix. *)
Definition clashing_gates : list (Gate * string) :=
  [(PauliX, "X"); (RX, "X"); (CNOT, "CNOT")].

Definition clashing_generators : list (Generator * string) :=
  [(GeneratorRX, "123456789RX"); (GeneratorCRX, "GeneratorRX")].

Definition clashing : Dispatcher :=
  {| str_to_gates_ := emplace_names clashing_gates ∅;
     str_to_gntrs_ :=
       emplace_names [(GeneratorRX, "RX"); (GeneratorCRX, "RX")] ∅;
     gate_kernels_ := ∅;
     generator_kernels_ := ∅;
     matrix_kernels_ := ∅;
     kernel_names_ := ∅ |}.

(** [GeneratorRX] registered under [Reference]. *)
Definition with_scale : Dispatcher :=
  registerGeneratorOperation GeneratorRX Reference (scale (-1)) fresh.

End Sample.

(** * Properties *)

(** ** [emplace] keeps what is there *)

Section Emplace.

Context `{Countable K} {V : Type}.
Implicit Types (m : gmap K V) (k : K) (v : V).

Lemma emplace_occupied m k v : is_Some (m !! k) → emplace k v m = m.
Proof. intros Hk. unfold emplace. by rewrite decide_True. Qed.

Lemma emplace_free m k v : m !! k = None → emplace k v m = <[k := v]> m.
Proof.
  intros Hk. unfold emplace. rewrite decide_False; [done|].
  rewrite Hk. by intros [? ?].
Qed.

Lemma lookup_emplace_free m k v : m !! k = None → emplace k v m !! k = Some v.
Proof. intros Hk. rewrite emplace_free by done. apply lookup_insert_eq. Qed.

Lemma lookup_emplace_ne m k k' v : k ≠ k' → emplace k v m !! k' = m !! k'.
Proof.
  intros Hne. unfold emplace. case_decide; [done|]. by apply lookup_insert_ne.
Qed.

(** An entry, once present, survives every later [emplace]. *)
Lemma lookup_emplace_Some m k k' v v' :
  m !! k' = Some v' → emplace k v m !! k' = Some v'.
Proof.
  intros Hk'. destruct (decide (k = k')) as [->|Hne].
  - rewrite emplace_occupied; eauto.
  - by rewrite lookup_emplace_ne.
Qed.

Lemma emplace_idemp m k v v' : emplace k v' (emplace k v m) = emplace k v m.
Proof.
  apply emplace_occupied. destruct (m !! k) as [w|] eqn:Hk.
  - rewrite emplace_occupied; eauto.
  - rewrite lookup_emplace_free; eauto.
Qed.

End Emplace.

(** ** Name tables built by [emplace] *)

Section NameTables.

Context {Op : Type}.
Implicit Types (names : list (Op * string)) (m : gmap string Op).

Lemma emplace_names_cons (entry : Op * string) names m :
  emplace_names (entry :: names) m
  = emplace_names names (emplace entry.2 entry.1 m).
Proof. done. Qed.

Lemma emplace_names_lookup_Some names m name op :
  m !! name = Some op → emplace_names names m !! name = Some op.
Proof.
  revert m. induction names as [|entry names IH]; intros m Hm; [done|].
  rewrite emplace_names_cons. by apply IH, lookup_emplace_Some.
Qed.

(** With pairwise distinct names, none of them in the map yet, every entry
    of the table is found under its name. *)
Lemma emplace_names_lookup names m name op :
  NoDup names.*2 →
  (∀ entry, entry ∈ names → m !! entry.2 = None) →
  (op, name) ∈ names →
  emplace_names names m !! name = Some op.
Proof.
  revert m. induction names as [|entry names IH]; intros m Hnd Hfree Hin.
  { by apply elem_of_nil in Hin. }
  rewrite fmap_cons in Hnd. apply NoDup_cons in Hnd as [Hentry Hnd].
  rewrite emplace_names_cons. apply elem_of_cons in Hin as [<-|Hin].
  - apply emplace_names_lookup_Some. simpl.
    apply lookup_emplace_free, (Hfree (op, name)), elem_of_cons; by left.
  - apply IH; [done| |done]. intros entry' Hin'.
    rewrite lookup_emplace_ne.
    + apply Hfree, elem_of_cons; by right.
    + intros Heq. apply Hentry. rewrite Heq.
      by apply (list_elem_of_fmap_2 snd).
Qed.

End NameTables.

(** ** Stripping the prefix *)

Lemma substr_prefix (bare : string) :
  substr (prefix +:+ bare) (String.length prefix) = Returned bare.
Proof.
  unfold substr. rewrite decide_True; [done|]. simpl. lia.
Qed.

Lemma prefix_inj (x y : string) : prefix +:+ x = prefix +:+ y → x = y.
Proof. cbv [prefix String.append]. congruence. Qed.

Lemma strip_prefixes_cons {Op} (op : Op) (name : string)
    (names : list (Op * string)) :
  strip_prefixes ((op, name) :: names)
  = bare ← substr name (String.length prefix);
    res ← strip_prefixes names;
    mret ((op, bare) :: res).
Proof. done. Qed.

Lemma strip_prefixes_prefixed {Op} (names : list (Op * string)) :
  Forall (λ entry, ∃ bare, entry.2 = prefix +:+ bare) names →
  ∃ res,
    strip_prefixes names = Returned res
    ∧ Forall2 (λ entry r, r.1 = entry.1 ∧ entry.2 = prefix +:+ r.2) names res.
Proof.
  induction 1 as [|[op name] names [bare Hname] _ (res & Hres & Hall)].
  { by exists []. }
  simpl in Hname. subst name. exists ((op, bare) :: res). split.
  - rewrite strip_prefixes_cons, substr_prefix. simpl. by rewrite Hres.
  - by constructor.
Qed.

(** ** Counting an element of a duplicate-free list *)

Lemma filter_eq_absent `{EqDecision A} (x : A) (l : list A) :
  x ∉ l → filter (λ y, y = x) l = [].
Proof.
  induction l as [|y l IH]; [done|].
  rewrite not_elem_of_cons. intros [Hne Hnot].
  rewrite filter_cons_False by (intros ->; done). auto.
Qed.

Lemma NoDup_occurs_once `{EqDecision A} (x : A) (l : list A) :
  NoDup l → x ∈ l → length (filter (λ y, y = x) l) = 1.
Proof.
  induction 1 as [|y l Hy Hnd IH]; [by rewrite elem_of_nil|].
  rewrite elem_of_cons. destruct (decide (y = x)) as [->|Hne].
  - intros _. rewrite filter_cons_True by done.
    by rewrite filter_eq_absent.
  - intros [->|Hin]; [done|]. rewrite filter_cons_False by done. auto.
Qed.

Section Properties.

Context {GateOperation GeneratorOperation KernelType : Type}.
Context `{Countable GateOperation, Countable GeneratorOperation,
          Countable KernelType}.
Context {PrecisionT CFP_ptr mem : Type}.
Context (matrix_name : MatrixOperation → string).

#[local] Abbreviation Dispatcher :=
  (@DynamicDispatcher GateOperation GeneratorOperation KernelType
     _ _ _ _ _ _ PrecisionT CFP_ptr mem).
#[local] Abbreviation Registration :=
  (@registration GateOperation GeneratorOperation KernelType
     PrecisionT CFP_ptr mem).
#[local] Abbreviation GateFn := (@GateFunc PrecisionT CFP_ptr mem).
#[local] Abbreviation GeneratorFn := (@GeneratorFunc PrecisionT CFP_ptr mem).
#[local] Abbreviation MatrixFn := (@MatrixFunc PrecisionT CFP_ptr mem).
#[local] Abbreviation Complex := (@CFP_t PrecisionT).

Implicit Types (d : Dispatcher) (kernel : KernelType) (data : CFP_ptr).
Implicit Types (gate_op : GateOperation) (gntr_op : GeneratorOperation).
Implicit Types (mat : MatrixOperation) (s : mem).
Implicit Types (num_qubits : nat) (wires : list nat).
Implicit Types (params : list PrecisionT) (matrix : list Complex).

(** The callable types are aliases; proofs see through them before they
    rewrite with a lookup. *)
#[local] Ltac see_callables :=
  unfold GateFunc, GeneratorFunc, MatrixFunc in *.

#[local] Ltac run_monad :=
  unfold mbind, M_bind, mret, M_ret, throw, lift; simpl.

(** ** Registrations never drop or replace an entry *)

Lemma register_gate_kernels_Some (r : Registration) d gate_op kernel
    (func : GateFn) :
  gate_kernels_ d !! (gate_op, kernel) = Some func →
  gate_kernels_ (register r d) !! (gate_op, kernel) = Some func.
Proof. destruct r; simpl; auto using lookup_emplace_Some. Qed.

Lemma register_generator_kernels_Some (r : Registration) d gntr_op kernel
    (func : GeneratorFn) :
  generator_kernels_ d !! (gntr_op, kernel) = Some func →
  generator_kernels_ (register r d) !! (gntr_op, kernel) = Some func.
Proof. destruct r; simpl; auto using lookup_emplace_Some. Qed.

Lemma register_matrix_kernels_Some (r : Registration) d mat kernel
    (func : MatrixFn) :
  matrix_kernels_ d !! (mat, kernel) = Some func →
  matrix_kernels_ (register r d) !! (mat, kernel) = Some func.
Proof. destruct r; simpl; auto using lookup_emplace_Some. Qed.

Lemma register_kernel_names_Some (r : Registration) d kernel name :
  kernel_names_ d !! kernel = Some name →
  kernel_names_ (register r d) !! kernel = Some name.
Proof. destruct r; simpl; auto using lookup_emplace_Some. Qed.

Lemma register_str_to_gates (r : Registration) d :
  str_to_gates_ (register r d) = str_to_gates_ d.
Proof. by destruct r. Qed.

Lemma register_str_to_gntrs (r : Registration) d :
  str_to_gntrs_ (register r d) = str_to_gntrs_ d.
Proof. by destruct r. Qed.

Lemma register_all_gate_kernels_Some (rs : list Registration) d gate_op kernel
    (func : GateFn) :
  gate_kernels_ d !! (gate_op, kernel) = Some func →
  gate_kernels_ (register_all rs d) !! (gate_op, kernel) = Some func.
Proof.
  revert d. induction rs as [|r rs IH]; intros d Hd; [done|].
  apply IH. by apply register_gate_kernels_Some.
Qed.

Lemma register_all_generator_kernels_Some (rs : list Registration) d gntr_op
    kernel (func : GeneratorFn) :
  generator_kernels_ d !! (gntr_op, kernel) = Some func →
  generator_kernels_ (register_all rs d) !! (gntr_op, kernel) = Some func.
Proof.
  revert d. induction rs as [|r rs IH]; intros d Hd; [done|].
  apply IH. by apply register_generator_kernels_Some.
Qed.

Lemma register_all_matrix_kernels_Some (rs : list Registration) d mat kernel
    (func : MatrixFn) :
  matrix_kernels_ d !! (mat, kernel) = Some func →
  matrix_kernels_ (register_all rs d) !! (mat, kernel) = Some func.
Proof.
  revert d. induction rs as [|r rs IH]; intros d Hd; [done|].
  apply IH. by apply register_matrix_kernels_Some.
Qed.

Lemma register_all_kernel_names_Some (rs : list Registration) d kernel name :
  kernel_names_ d !! kernel = Some name →
  kernel_names_ (register_all rs d) !! kernel = Some name.
Proof.
  revert d. induction rs as [|r rs IH]; intros d Hd; [done|].
  apply IH. by apply register_kernel_names_Some.
Qed.

Lemma register_all_str_to_gates (rs : list Registration) d :
  str_to_gates_ (register_all rs d) = str_to_gates_ d.
Proof.
  revert d. induction rs as [|r rs IH]; intros d; [done|].
  change (register_all (r :: rs) d) with (register_all rs (register r d)).
  by rewrite IH, register_str_to_gates.
Qed.

Lemma register_all_str_to_gntrs (rs : list Registration) d :
  str_to_gntrs_ (register_all rs d) = str_to_gntrs_ d.
Proof.
  revert d. induction rs as [|r rs IH]; intros d; [done|].
  change (register_all (r :: rs) d) with (register_all rs (register r d)).
  by rewrite IH, register_str_to_gntrs.
Qed.

(** ** What a dispatch call does, by cases on the registry *)

Lemma applyOperation_op_registered d kernel data num_qubits gate_op wires
    inverse params (func : GateFn) s :
  gate_kernels_ d !! (gate_op, kernel) = Some func →
  applyOperation_op d kernel data num_qubits gate_op wires inverse params s
  = func data num_qubits wires inverse params s.
Proof. intros Hf. unfold applyOperation_op. see_callables. by rewrite Hf. Qed.

Lemma applyOperation_op_missing d kernel data num_qubits gate_op wires
    inverse params s :
  gate_kernels_ d !! (gate_op, kernel) = None →
  applyOperation_op d kernel data num_qubits gate_op wires inverse params s
  = (Thrown gate_kernel_missing, s).
Proof. intros Hf. unfold applyOperation_op. see_callables. by rewrite Hf. Qed.

Lemma applyOperation_known d kernel data num_qubits op_name gate_op wires
    inverse params s :
  str_to_gates_ d !! op_name = Some gate_op →
  applyOperation d kernel data num_qubits op_name wires inverse params s
  = applyOperation_op d kernel data num_qubits gate_op wires inverse params s.
Proof.
  intros Hop. unfold applyOperation, applyOperation_op, strToGateOp, map_at.
  by rewrite Hop.
Qed.

Lemma applyOperation_unknown d kernel data num_qubits op_name wires
    inverse params s :
  str_to_gates_ d !! op_name = None →
  applyOperation d kernel data num_qubits op_name wires inverse params s
  = (Thrown out_of_range, s).
Proof.
  intros Hop. unfold applyOperation, strToGateOp, map_at. by rewrite Hop.
Qed.

Lemma applyGenerator_registered d kernel data num_qubits gntr_op wires adj
    (func : GeneratorFn) s :
  generator_kernels_ d !! (gntr_op, kernel) = Some func →
  applyGenerator d kernel data num_qubits gntr_op wires adj s
  = func data num_qubits wires adj s.
Proof. intros Hf. unfold applyGenerator. see_callables. by rewrite Hf. Qed.

Lemma applyGenerator_missing d kernel data num_qubits gntr_op wires adj s :
  generator_kernels_ d !! (gntr_op, kernel) = None →
  applyGenerator d kernel data num_qubits gntr_op wires adj s
  = (Thrown generator_kernel_missing, s).
Proof. intros Hf. unfold applyGenerator. see_callables. by rewrite Hf. Qed.

Lemma applyGenerator_name_known d kernel data num_qubits op_name gntr_op
    wires adj s :
  str_to_gntrs_ d !! op_name = Some gntr_op →
  applyGenerator_name d kernel data num_qubits op_name wires adj s
  = applyGenerator d kernel data num_qubits gntr_op wires adj s.
Proof.
  intros Hop. unfold applyGenerator_name, applyGenerator, strToGeneratorOp, map_at.
  by rewrite Hop.
Qed.

Lemma applyGenerator_name_unknown d kernel data num_qubits op_name wires adj s :
  str_to_gntrs_ d !! op_name = None →
  applyGenerator_name d kernel data num_qubits op_name wires adj s
  = (Thrown out_of_range, s).
Proof.
  intros Hop. unfold applyGenerator_name, strToGeneratorOp, map_at.
  by rewrite Hop.
Qed.

Lemma applyMatrix_asserted d kernel data num_qubits matrix wires inverse s :
  num_qubits < length wires →
  applyMatrix matrix_name d kernel data num_qubits matrix wires inverse s
  = (Aborted, s).
Proof.
  intros Hlt. unfold applyMatrix, PL_ASSERT.
  rewrite bool_decide_eq_false_2 by lia. done.
Qed.

Lemma applyMatrix_registered d kernel data num_qubits matrix wires inverse
    (func : MatrixFn) s :
  length wires ≤ num_qubits →
  matrix_kernels_ d !! (mat_op (length wires), kernel) = Some func →
  applyMatrix matrix_name d kernel data num_qubits matrix wires inverse s
  = func data num_qubits matrix wires inverse s.
Proof.
  intros Hle Hf. unfold applyMatrix, PL_ASSERT.
  rewrite bool_decide_eq_true_2 by done.
  run_monad. see_callables. by rewrite Hf.
Qed.

Lemma applyMatrix_missing d kernel data num_qubits matrix wires inverse s :
  length wires ≤ num_qubits →
  matrix_kernels_ d !! (mat_op (length wires), kernel) = None →
  applyMatrix matrix_name d kernel data num_qubits matrix wires inverse s
  = (Thrown (matrix_kernel_missing matrix_name (mat_op (length wires))), s).
Proof.
  intros Hle Hf. unfold applyMatrix, PL_ASSERT.
  rewrite bool_decide_eq_true_2 by done.
  run_monad. see_callables. by rewrite Hf.
Qed.

Lemma exp2_double n : exp2 (2 * n) = 4 ^ n.
Proof. unfold exp2. by rewrite Nat.pow_mul_r. Qed.

Lemma applyMatrix_vec_sized d kernel data num_qubits matrix wires inverse s :
  length matrix = 4 ^ length wires →
  applyMatrix_vec matrix_name d kernel data num_qubits matrix wires inverse s
  = applyMatrix matrix_name d kernel data num_qubits matrix wires inverse s.
Proof.
  intros Hsz. unfold applyMatrix_vec. rewrite exp2_double.
  by rewrite bool_decide_eq_false_2 by (by intros ?).
Qed.

Lemma applyMatrix_vec_missized d kernel data num_qubits matrix wires inverse s :
  length matrix ≠ 4 ^ length wires →
  applyMatrix_vec matrix_name d kernel data num_qubits matrix wires inverse s
  = (Thrown matrix_size_mismatch, s).
Proof.
  intros Hsz. unfold applyMatrix_vec. rewrite exp2_double.
  by rewrite bool_decide_eq_true_2.
Qed.

(** ** The loop of a batch *)

Lemma for_range_app (body : nat → M unit) start a b s :
  for_range start (a + b) body s
  = (for_range start a body ≫= λ _, for_range (start + a) b body) s.
Proof.
  revert start s. induction a as [|a IH]; intros start s.
  - simpl. run_monad. by rewrite Nat.add_0_r.
  - simpl. run_monad. destruct (body start s) as [[[]| | |] s1]; try done.
    rewrite IH. run_monad. by rewrite Nat.add_succ_r.
Qed.

Lemma runs_upto_for_range (body : nat → M unit) i s s_i :
  runs_upto body i s s_i → for_range 0 i body s = (Returned (), s_i).
Proof.
  induction 1 as [s|i s s' s'' _ IH Hbody]; [done|].
  rewrite <- Nat.add_1_r, for_range_app. run_monad.
  rewrite IH. run_monad. by rewrite Hbody.
Qed.

Lemma for_range_stops (body : nat → M unit) n i s s_i r s' :
  i < n →
  runs_upto body i s s_i →
  body i s_i = (r, s') →
  is_failure r →
  for_range 0 n body s = (r, s').
Proof.
  intros Hlt Hruns Hbody Hfail.
  replace n with (i + S (n - S i)) by lia.
  rewrite for_range_app. run_monad.
  rewrite (runs_upto_for_range _ _ _ _ Hruns). simpl. run_monad.
  rewrite Hbody. by destruct r.
Qed.

Lemma apply_nth_entries d kernel data num_qubits (ops : list string)
    (wires : list (list nat)) (inverse : list bool)
    (params : list (list PrecisionT)) i op w inv p s :
  ops !! i = Some op → wires !! i = Some w →
  inverse !! i = Some inv → params !! i = Some p →
  apply_nth d kernel data num_qubits ops wires inverse params i s
  = applyOperation d kernel data num_qubits op w inv p s.
Proof.
  intros Hop Hw Hinv Hp. unfold apply_nth, index.
  by rewrite Hop, Hw, Hinv, Hp.
Qed.

Lemma apply_nth_noparams_entries d kernel data num_qubits (ops : list string)
    (wires : list (list nat)) (inverse : list bool) i op w inv s :
  ops !! i = Some op → wires !! i = Some w → inverse !! i = Some inv →
  apply_nth_noparams d kernel data num_qubits ops wires inverse i s
  = applyOperation d kernel data num_qubits op w inv [] s.
Proof.
  intros Hop Hw Hinv. unfold apply_nth_noparams, index.
  by rewrite Hop, Hw, Hinv.
Qed.

(** ** Registration *)

(** C1.  In each of the three callable mappings, registering under an
    occupied (operation, kernel) key returns the dispatcher as it was, and
    once a callable has been registered under a free key, every dispatch of
    that pair runs it, whatever registrations [rs] were made afterwards:
    by enumerator and by name for gates and generators, by pointer and by
    vector for matrices. *)
Theorem first_registration_wins d kernel (rs : list Registration) :
  (∀ gate_op (func new : GateFn),
     gate_kernels_ d !! (gate_op, kernel) = Some func →
     registerGateOperation gate_op kernel new d = d)
  ∧ (∀ gate_op (first : GateFn),
       gate_kernels_ d !! (gate_op, kernel) = None →
       let d' := register_all rs (registerGateOperation gate_op kernel first d) in
       ∀ data num_qubits wires inverse params s,
         applyOperation_op d' kernel data num_qubits gate_op wires inverse params s
         = first data num_qubits wires inverse params s
         ∧ ∀ op_name,
             str_to_gates_ d !! op_name = Some gate_op →
             applyOperation d' kernel data num_qubits op_name wires inverse params s
             = first data num_qubits wires inverse params s)
  ∧ (∀ gntr_op (func new : GeneratorFn),
       generator_kernels_ d !! (gntr_op, kernel) = Some func →
       registerGeneratorOperation gntr_op kernel new d = d)
  ∧ (∀ gntr_op (first : GeneratorFn),
       generator_kernels_ d !! (gntr_op, kernel) = None →
       let d' :=
         register_all rs (registerGeneratorOperation gntr_op kernel first d) in
       ∀ data num_qubits wires adj s,
         applyGenerator d' kernel data num_qubits gntr_op wires adj s
         = first data num_qubits wires adj s
         ∧ ∀ op_name,
             str_to_gntrs_ d !! op_name = Some gntr_op →
             applyGenerator_name d' kernel data num_qubits op_name wires adj s
             = first data num_qubits wires adj s)
  ∧ (∀ mat (func new : MatrixFn),
       matrix_kernels_ d !! (mat, kernel) = Some func →
       registerMatrixOperation mat kernel new d = d)
  ∧ (∀ mat (first : MatrixFn),
       matrix_kernels_ d !! (mat, kernel) = None →
       let d' := register_all rs (registerMatrixOperation mat kernel first d) in
       ∀ data num_qubits matrix wires inverse s,
         mat_op (length wires) = mat →
         length wires ≤ num_qubits →
         applyMatrix matrix_name d' kernel data num_qubits matrix wires inverse s
         = first data num_qubits matrix wires inverse s
         ∧ (length matrix = 4 ^ length wires →
            applyMatrix_vec matrix_name d' kernel data num_qubits matrix wires
              inverse s
            = first data num_qubits matrix wires inverse s)).
Proof.
  repeat split.
  - intros gate_op func new Hocc. destruct d; unfold registerGateOperation; simpl in *.
    f_equal. apply emplace_occupied; eauto.
  - apply applyOperation_op_registered, register_all_gate_kernels_Some.
    simpl. by apply lookup_emplace_free.
  - intros op_name Hname.
    rewrite (applyOperation_known _ _ _ _ _ gate_op)
      by (by rewrite register_all_str_to_gates).
    apply applyOperation_op_registered, register_all_gate_kernels_Some.
    simpl. by apply lookup_emplace_free.
  - intros gntr_op func new Hocc.
    destruct d; unfold registerGeneratorOperation; simpl in *.
    f_equal. apply emplace_occupied; eauto.
  - apply applyGenerator_registered, register_all_generator_kernels_Some.
    simpl. by apply lookup_emplace_free.
  - intros op_name Hname.
    rewrite (applyGenerator_name_known _ _ _ _ _ gntr_op)
      by (by rewrite register_all_str_to_gntrs).
    apply applyGenerator_registered, register_all_generator_kernels_Some.
    simpl. by apply lookup_emplace_free.
  - intros mat func new Hocc.
    destruct d; unfold registerMatrixOperation; simpl in *.
    f_equal. apply emplace_occupied; eauto.
  - apply applyMatrix_registered; [done|].
    apply register_all_matrix_kernels_Some.
    simpl. subst mat. by apply lookup_emplace_free.
  - intros Hsize. rewrite applyMatrix_vec_sized by done.
    apply applyMatrix_registered; [done|].
    apply register_all_matrix_kernels_Some.
    simpl. subst mat. by apply lookup_emplace_free.
Qed.

(** C10.  The kernel-name table keeps the first name as well: naming a
    kernel that already has a name returns the dispatcher as it was, and
    after a kernel without a name has been given one, [getKernelName]
    returns that name and [registeredKernels] holds the kernel exactly once,
    whatever registrations [rs] were made afterwards. *)
Theorem kernel_name_first_wins d kernel (rs : list Registration) :
  (∀ name new,
     kernel_names_ d !! kernel = Some name →
     registerKernelName kernel new d = d)
  ∧ (∀ first,
       kernel_names_ d !! kernel = None →
       let d' := register_all rs (registerKernelName kernel first d) in
       getKernelName d' kernel = Returned first
       ∧ length (filter (λ k, k = kernel) (registeredKernels d')) = 1).
Proof.
  split.
  - intros name new Hocc. destruct d; unfold registerKernelName; simpl in *.
    f_equal. apply emplace_occupied; eauto.
  - intros first Hfree d'.
    assert (kernel_names_ d' !! kernel = Some first) as Hd'.
    { apply register_all_kernel_names_Some. simpl.
      by apply lookup_emplace_free. }
    split.
    + unfold getKernelName, map_at. by rewrite Hd'.
    + apply NoDup_occurs_once.
      * apply NoDup_fst_map_to_list.
      * unfold registeredKernels. apply list_elem_of_fmap.
        exists (kernel, first). split; [done|].
        by apply elem_of_map_to_list.
Qed.

(** ** Gate dispatch *)

(** C2, as the code has it.  When the resolved (gate, kernel) pair has no
    callable, [applyOperation] (by enumerator or by a known name) throws
    [std::invalid_argument] with one fixed message and leaves the store as
    it was; the message depends on neither the operation nor the kernel. *)
Theorem missing_gate_kernel_report d kernel data num_qubits wires inverse
    params s :
  (∀ gate_op,
     gate_kernels_ d !! (gate_op, kernel) = None →
     applyOperation_op d kernel data num_qubits gate_op wires inverse params s
     = (Thrown
          (invalid_argument
             "Cannot find a registered kernel for a given gate and kernel pair"),
        s))
  ∧ (∀ op_name gate_op,
       str_to_gates_ d !! op_name = Some gate_op →
       gate_kernels_ d !! (gate_op, kernel) = None →
       applyOperation d kernel data num_qubits op_name wires inverse params s
       = (Thrown
            (invalid_argument
               "Cannot find a registered kernel for a given gate and kernel pair"),
          s)).
Proof.
  split.
  - intros gate_op Hmiss. by apply applyOperation_op_missing.
  - intros op_name gate_op Hname Hmiss.
    rewrite (applyOperation_known _ _ _ _ _ gate_op) by done.
    by apply applyOperation_op_missing.
Qed.

(** C8.  A gate name that is not in [str_to_gates_] makes [applyOperation]
    throw the [std::out_of_range] of [strToGateOp] (the failure the
    specification calls UnknownOperation).  The result mentions neither the
    callable mappings nor any callable, and the store is the one the call
    started from. *)
Theorem unknown_gate_name_fails d kernel data num_qubits op_name wires
    inverse params s :
  str_to_gates_ d !! op_name = None →
  hasGateOp d op_name = false
  ∧ strToGateOp d op_name = Thrown out_of_range
  ∧ applyOperation d kernel data num_qubits op_name wires inverse params s
    = (Thrown out_of_range, s).
Proof.
  intros Hname. split_and!.
  - unfold hasGateOp. apply bool_decide_eq_false_2. rewrite Hname.
    by intros [? ?].
  - unfold strToGateOp, map_at. by rewrite Hname.
  - by apply applyOperation_unknown.
Qed.

(** C3.  A batch whose sequences break the length precondition throws the
    [std::invalid_argument] of the count check (ArgumentCountMismatch).
    The result does not depend on the registry, so no callable runs, and
    the store is unchanged. *)
Theorem count_mismatch_fails_fast d kernel data num_qubits (ops : list string)
    (wires : list (list nat)) (inverse : list bool)
    (params : list (list PrecisionT)) s :
  (¬ (length ops = length wires ∧ length wires = length params) →
   applyOperations d kernel data num_qubits ops wires inverse params s
   = (Thrown count_mismatch, s))
  ∧ (length ops ≠ length wires →
     applyOperations_noparams d kernel data num_qubits ops wires inverse s
     = (Thrown count_mismatch, s)).
Proof.
  split.
  - intros Hlen. unfold applyOperations.
    destruct (decide (length ops = length wires)) as [Heq|Hne].
    + rewrite (bool_decide_eq_true_2 (length ops ≠ length params)) by lia.
      by rewrite orb_true_r.
    + by rewrite (bool_decide_eq_true_2 (length ops ≠ length wires)).
  - intros Hlen. unfold applyOperations_noparams.
    by rewrite bool_decide_eq_true_2.
Qed.

(** ** Matrix dispatch *)

(** C5.  [applyMatrix] picks the matrix operation from the number of wires
    alone: one wire gives the single-qubit operation, two wires the
    two-qubit operation, any other number the multi-qubit operation.  The
    callable registered under that operation is the one that runs, for
    every matrix; without one, the report names that operation.  The vector
    form does the same once its size check has passed. *)
Theorem matrix_operation_by_wire_count d kernel data num_qubits matrix wires
    inverse s :
  let expected :=
    if decide (length wires = 1) then SingleQubitOp
    else if decide (length wires = 2) then TwoQubitOp
    else MultiQubitOp in
  mat_op (length wires) = expected
  ∧ (length wires ≤ num_qubits →
     (∀ func : MatrixFn,
        matrix_kernels_ d !! (expected, kernel) = Some func →
        applyMatrix matrix_name d kernel data num_qubits matrix wires inverse s
        = func data num_qubits matrix wires inverse s
        ∧ (length matrix = 4 ^ length wires →
           applyMatrix_vec matrix_name d kernel data num_qubits matrix wires
             inverse s
           = func data num_qubits matrix wires inverse s))
     ∧ (matrix_kernels_ d !! (expected, kernel) = None →
        applyMatrix matrix_name d kernel data num_qubits matrix wires inverse s
        = (Thrown (matrix_kernel_missing matrix_name expected), s))).
Proof.
  intros expected.
  assert (mat_op (length wires) = expected) as Hexp.
  { subst expected. by destruct (length wires) as [|[|[|n]]]. }
  split; [done|]. intros Hle. rewrite <- Hexp. split.
  - intros func Hf.
    assert (applyMatrix matrix_name d kernel data num_qubits matrix wires
              inverse s
            = func data num_qubits matrix wires inverse s) as Hptr
      by by apply applyMatrix_registered.
    split; [done|]. intros Hsize. by rewrite applyMatrix_vec_sized.
  - by apply applyMatrix_missing.
Qed.

(** C6.  The vector form of [applyMatrix] compares the element count with
    [4 ^ wires.size()]: a different count throws the
    [std::invalid_argument] of the size check (MatrixSizeMismatch) with
    the store unchanged and without consulting the registry; an equal count
    raises nothing and the call continues as the pointer form. *)
Theorem matrix_size_checked d kernel data num_qubits matrix wires inverse s :
  (length matrix ≠ 4 ^ length wires →
   applyMatrix_vec matrix_name d kernel data num_qubits matrix wires inverse s
   = (Thrown matrix_size_mismatch, s))
  ∧ (length matrix = 4 ^ length wires →
     applyMatrix_vec matrix_name d kernel data num_qubits matrix wires inverse s
     = applyMatrix matrix_name d kernel data num_qubits matrix wires inverse s).
Proof.
  split; intros Hsize.
  - by apply applyMatrix_vec_missized.
  - by apply applyMatrix_vec_sized.
Qed.

(** C9, as the code has it.  With more wires than qubits the pointer form of
    [applyMatrix] stops at the assertion, and so does the vector form when
    the matrix has [4 ^ wires.size()] elements (its size check comes
    first).  With at most as many wires as qubits the assertion passes and
    the call is the lookup followed by the callable. *)
Theorem wire_count_asserted d kernel data num_qubits matrix wires inverse s :
  (num_qubits < length wires →
   applyMatrix matrix_name d kernel data num_qubits matrix wires inverse s
   = (Aborted, s)
   ∧ (length matrix = 4 ^ length wires →
      applyMatrix_vec matrix_name d kernel data num_qubits matrix wires inverse s
      = (Aborted, s)))
  ∧ (length wires ≤ num_qubits →
     applyMatrix matrix_name d kernel data num_qubits matrix wires inverse s
     = match matrix_kernels_ d !! (mat_op (length wires), kernel) with
       | Some func => func data num_qubits matrix wires inverse s
       | None =>
           (Thrown (matrix_kernel_missing matrix_name (mat_op (length wires))), s)
       end).
Proof.
  split.
  - intros Hlt. split.
    + by apply applyMatrix_asserted.
    + intros Hsize. rewrite applyMatrix_vec_sized by done.
      by apply applyMatrix_asserted.
  - intros Hle.
    destruct (matrix_kernels_ d !! (mat_op (length wires), kernel))
      as [func|] eqn:Hf.
    + by apply applyMatrix_registered.
    + by apply applyMatrix_missing.
Qed.

(** ** Failures and the store *)

(** C4.  Whatever a single dispatch call produces is either a failure the
    dispatcher raised itself (unknown name, missing kernel, wrong matrix
    size, failed assertion), and then the store is exactly the one the call
    was given, or the outcome of the registered callable run on that
    untouched store.  In a batch that passes the length check the entries
    are run in input order by [apply_nth]: when entries [0 .. i-1] return
    and entry [i] fails, the batch ends with that failure and with the
    store entry [i] left, so the earlier mutations stay and no later entry
    runs; when all entries return, the batch returns with the store of the
    last one. *)
Theorem failures_precede_mutation d kernel data num_qubits s :
  (∀ gate_op wires inverse params r s',
     applyOperation_op d kernel data num_qubits gate_op wires inverse params s
     = (r, s') →
     (s' = s ∧ r = Thrown gate_kernel_missing)
     ∨ ∃ func : GateFn,
         gate_kernels_ d !! (gate_op, kernel) = Some func
         ∧ func data num_qubits wires inverse params s = (r, s'))
  ∧ (∀ op_name wires inverse params r s',
       applyOperation d kernel data num_qubits op_name wires inverse params s
       = (r, s') →
       (s' = s ∧ (r = Thrown out_of_range ∨ r = Thrown gate_kernel_missing))
       ∨ ∃ gate_op (func : GateFn),
           str_to_gates_ d !! op_name = Some gate_op
           ∧ gate_kernels_ d !! (gate_op, kernel) = Some func
           ∧ func data num_qubits wires inverse params s = (r, s'))
  ∧ (∀ gntr_op wires adj r s',
       applyGenerator d kernel data num_qubits gntr_op wires adj s = (r, s') →
       (s' = s ∧ r = Thrown generator_kernel_missing)
       ∨ ∃ func : GeneratorFn,
           generator_kernels_ d !! (gntr_op, kernel) = Some func
           ∧ func data num_qubits wires adj s = (r, s'))
  ∧ (∀ op_name wires adj r s',
       applyGenerator_name d kernel data num_qubits op_name wires adj s
       = (r, s') →
       (s' = s
        ∧ (r = Thrown out_of_range ∨ r = Thrown generator_kernel_missing))
       ∨ ∃ gntr_op (func : GeneratorFn),
           str_to_gntrs_ d !! op_name = Some gntr_op
           ∧ generator_kernels_ d !! (gntr_op, kernel) = Some func
           ∧ func data num_qubits wires adj s = (r, s'))
  ∧ (∀ matrix wires inverse r s',
       applyMatrix matrix_name d kernel data num_qubits matrix wires inverse s
       = (r, s') →
       (s' = s
        ∧ (r = Aborted
           ∨ r = Thrown (matrix_kernel_missing matrix_name
                           (mat_op (length wires)))))
       ∨ ∃ func : MatrixFn,
           matrix_kernels_ d !! (mat_op (length wires), kernel) = Some func
           ∧ func data num_qubits matrix wires inverse s = (r, s'))
  ∧ (∀ matrix wires inverse r s',
       applyMatrix_vec matrix_name d kernel data num_qubits matrix wires
         inverse s
       = (r, s') →
       (s' = s
        ∧ (r = Thrown matrix_size_mismatch
           ∨ r = Aborted
           ∨ r = Thrown (matrix_kernel_missing matrix_name
                           (mat_op (length wires)))))
       ∨ ∃ func : MatrixFn,
           matrix_kernels_ d !! (mat_op (length wires), kernel) = Some func
           ∧ func data num_qubits matrix wires inverse s = (r, s'))
  ∧ (∀ (ops : list string) (wires : list (list nat)) (inverse : list bool)
       (params : list (list PrecisionT)),
       length ops = length wires →
       length wires = length params →
       let entry := apply_nth d kernel data num_qubits ops wires inverse params in
       (∀ i op w inv p s_i,
          ops !! i = Some op → wires !! i = Some w →
          inverse !! i = Some inv → params !! i = Some p →
          entry i s_i = applyOperation d kernel data num_qubits op w inv p s_i)
       ∧ (∀ i s_i r s',
            i < length ops →
            runs_upto entry i s s_i →
            entry i s_i = (r, s') →
            is_failure r →
            applyOperations d kernel data num_qubits ops wires inverse params s
            = (r, s'))
       ∧ (∀ s_n,
            runs_upto entry (length ops) s s_n →
            applyOperations d kernel data num_qubits ops wires inverse params s
            = (Returned (), s_n)))
  ∧ (∀ (ops : list string) (wires : list (list nat)) (inverse : list bool),
       length ops = length wires →
       let entry :=
         apply_nth_noparams d kernel data num_qubits ops wires inverse in
       (∀ i op w inv s_i,
          ops !! i = Some op → wires !! i = Some w → inverse !! i = Some inv →
          entry i s_i = applyOperation d kernel data num_qubits op w inv [] s_i)
       ∧ (∀ i s_i r s',
            i < length ops →
            runs_upto entry i s s_i →
            entry i s_i = (r, s') →
            is_failure r →
            applyOperations_noparams d kernel data num_qubits ops wires inverse s
            = (r, s'))
       ∧ (∀ s_n,
            runs_upto entry (length ops) s s_n →
            applyOperations_noparams d kernel data num_qubits ops wires inverse s
            = (Returned (), s_n))).
Proof.
  assert (∀ gate_op wires inverse params r s',
     applyOperation_op d kernel data num_qubits gate_op wires inverse params s
     = (r, s') →
     (s' = s ∧ r = Thrown gate_kernel_missing)
     ∨ ∃ func : GateFn,
         gate_kernels_ d !! (gate_op, kernel) = Some func
         ∧ func data num_qubits wires inverse params s = (r, s')) as Hgate.
  { intros gate_op wires inverse params r s' Hcall.
    destruct (gate_kernels_ d !! (gate_op, kernel)) as [func|] eqn:Hf.
    - rewrite (applyOperation_op_registered _ _ _ _ _ _ _ _ func) in Hcall by done.
      right; eauto.
    - rewrite applyOperation_op_missing in Hcall by done.
      left; split; congruence. }
  assert (∀ gntr_op wires adj r s',
     applyGenerator d kernel data num_qubits gntr_op wires adj s = (r, s') →
     (s' = s ∧ r = Thrown generator_kernel_missing)
     ∨ ∃ func : GeneratorFn,
         generator_kernels_ d !! (gntr_op, kernel) = Some func
         ∧ func data num_qubits wires adj s = (r, s')) as Hgntr.
  { intros gntr_op wires adj r s' Hcall.
    destruct (generator_kernels_ d !! (gntr_op, kernel)) as [func|] eqn:Hf.
    - rewrite (applyGenerator_registered _ _ _ _ _ _ _ func) in Hcall by done.
      right; eauto.
    - rewrite applyGenerator_missing in Hcall by done.
      left; split; congruence. }
  assert (∀ matrix wires inverse r s',
     applyMatrix matrix_name d kernel data num_qubits matrix wires inverse s
     = (r, s') →
     (s' = s
      ∧ (r = Aborted
         ∨ r = Thrown (matrix_kernel_missing matrix_name
                         (mat_op (length wires)))))
     ∨ ∃ func : MatrixFn,
         matrix_kernels_ d !! (mat_op (length wires), kernel) = Some func
         ∧ func data num_qubits matrix wires inverse s = (r, s')) as Hmat.
  { intros matrix wires inverse r s' Hcall.
    destruct (decide (length wires ≤ num_qubits)) as [Hle|Hgt].
    - destruct (matrix_kernels_ d !! (mat_op (length wires), kernel))
        as [func|] eqn:Hf.
      + rewrite (applyMatrix_registered _ _ _ _ _ _ _ func) in Hcall by done.
        right; eauto.
      + rewrite applyMatrix_missing in Hcall by done.
        left; split; [congruence|right; congruence].
    - rewrite applyMatrix_asserted in Hcall by lia.
      left; split; [congruence|left; congruence]. }
  split_and!.
  - done.
  - intros op_name wires inverse params r s' Hcall.
    destruct (str_to_gates_ d !! op_name) as [gate_op|] eqn:Hname.
    + rewrite (applyOperation_known _ _ _ _ _ gate_op) in Hcall by done.
      destruct (Hgate _ _ _ _ _ _ Hcall) as [[-> ->]|(func & ? & ?)];
        [left; auto|].
      right; eauto.
    + rewrite applyOperation_unknown in Hcall by done.
      left; split; [congruence|left; congruence].
  - done.
  - intros op_name wires adj r s' Hcall.
    destruct (str_to_gntrs_ d !! op_name) as [gntr_op|] eqn:Hname.
    + rewrite (applyGenerator_name_known _ _ _ _ _ gntr_op) in Hcall by done.
      destruct (Hgntr _ _ _ _ _ Hcall) as [[-> ->]|(func & ? & ?)];
        [left; auto|].
      right; eauto.
    + rewrite applyGenerator_name_unknown in Hcall by done.
      left; split; [congruence|left; congruence].
  - done.
  - intros matrix wires inverse r s' Hcall.
    destruct (decide (length matrix = 4 ^ length wires)) as [Hsize|Hsize].
    + rewrite applyMatrix_vec_sized in Hcall by done.
      destruct (Hmat _ _ _ _ _ Hcall) as [[-> Hr]|?]; [|by right].
      left; split; [done|by right].
    + rewrite applyMatrix_vec_missized in Hcall by done.
      left; split; [congruence|left; congruence].
  - intros ops wires inverse params Hlen1 Hlen2 entry.
    assert (∀ s1,
      applyOperations d kernel data num_qubits ops wires inverse params s1
      = for_range 0 (length ops) entry s1) as Hloop.
    { intros s1. unfold applyOperations.
      rewrite (bool_decide_eq_false_2 (length ops ≠ length wires)) by lia.
      by rewrite (bool_decide_eq_false_2 (length ops ≠ length params)) by lia. }
    split_and!.
    + intros. by apply apply_nth_entries.
    + intros i s_i r s' Hi Hruns Hentry Hfail. rewrite Hloop.
      by apply (for_range_stops _ _ i _ s_i).
    + intros s_n Hruns. rewrite Hloop. by apply runs_upto_for_range.
  - intros ops wires inverse Hlen entry.
    assert (∀ s1,
      applyOperations_noparams d kernel data num_qubits ops wires inverse s1
      = for_range 0 (length ops) entry s1) as Hloop.
    { intros s1. unfold applyOperations_noparams.
      by rewrite (bool_decide_eq_false_2 (length ops ≠ length wires)) by lia. }
    split_and!.
    + intros. by apply apply_nth_noparams_entries.
    + intros i s_i r s' Hi Hruns Hentry Hfail. rewrite Hloop.
      by apply (for_range_stops _ _ i _ s_i).
    + intros s_n Hruns. rewrite Hloop. by apply runs_upto_for_range.
Qed.

(** ** Name translation *)

(** C7.  For a catalogue whose gate names are pairwise distinct and whose
    generator names are pairwise distinct and all start with the prefix,
    the constructor succeeds and the dispatcher it builds translates every
    catalogued gate name [N] to the enumerator catalogued with [N], and the
    bare name [X] of every catalogued generator name ["Generator" +:+ X] to
    the enumerator catalogued with it. *)
Theorem catalogue_names_resolve (gate_names : list (GateOperation * string))
    (generator_names : list (GeneratorOperation * string)) :
  NoDup gate_names.*2 →
  NoDup generator_names.*2 →
  Forall (λ entry, ∃ X, entry.2 = "Generator" +:+ X) generator_names →
  ∃ d : Dispatcher,
    DynamicDispatcher_ctor gate_names generator_names = Returned d
    ∧ (∀ gate_op N,
         (gate_op, N) ∈ gate_names → strToGateOp d N = Returned gate_op)
    ∧ (∀ gntr_op X,
         (gntr_op, "Generator" +:+ X) ∈ generator_names →
         strToGeneratorOp d X = Returned gntr_op).
Proof.
  intros Hgates Hgntrs Hprefixed.
  destruct (strip_prefixes_prefixed _ Hprefixed) as (bare & Hbare & Hall).
  eexists. split_and!.
  - unfold DynamicDispatcher_ctor, generatorNamesWithoutPrefix.
    rewrite Hbare. reflexivity.
  - intros gate_op N Hin. unfold strToGateOp, map_at. simpl.
    by rewrite (emplace_names_lookup _ _ N gate_op).
  - intros gntr_op X Hin. unfold strToGeneratorOp, map_at. simpl.
    rewrite (emplace_names_lookup _ _ X gntr_op); [done| |done|].
    + apply (NoDup_fmap_1 (String.append prefix)).
      replace (String.append prefix <$> bare.*2) with generator_names.*2;
        [done|].
      clear -Hall. induction Hall as [|entry r names res [_ Hname] _ IH];
        [done|]. rewrite !fmap_cons. by f_equal.
    + apply list_elem_of_lookup in Hin as [i Hi].
      destruct (Forall2_lookup_l _ _ _ _ _ Hall Hi) as (r & Hr & Hop & Hname).
      simpl in *. apply prefix_inj in Hname. subst.
      apply list_elem_of_lookup. exists i. by destruct r.
Qed.

End Properties.

(** * The properties on the sample instance *)

Section SampleRuns.

Import Sample.

(** [fresh] is what the constructor builds from the sample catalogue. *)
Lemma fresh_constructed :
  DynamicDispatcher_ctor gate_names generator_names = Returned fresh.
Proof. vm_compute. reflexivity. Qed.

(** The specification's scenario: [PauliX] under [Reference], applied by
    name to the buffer [1, 0]. *)
Example apply_PauliX :
  applyOperation with_flip Reference () 1 "PauliX" [0] false [] s0
  = flip () 1 [0] false [] s0.
Proof. vm_compute. reflexivity. Qed.

(** A [false] flag is missing for the third entry: the read is past the end
    of [inverse], after two entries have run. *)
Example short_inverse :
  applyOperations with_flip Reference () 1 ["PauliX"; "PauliX"; "PauliX"]
    [[0]; [0]; [0]] [false; false] [[]; []; []] s0
  = (Undefined, {| buffer := buffer s0; calls := 2 |}).
Proof. vm_compute. reflexivity. Qed.

(** C1 on the sample: [flip] is registered first for ([PauliX],
    [Reference]); [late] then offers [keep] for the same key.  The call
    reverses the buffer, so [flip] ran.  The same for a generator and a
    matrix operation. *)
Lemma first_registration_wins_witness :
  registerGateOperation PauliX Reference keep with_flip = with_flip
  ∧ applyOperation (register_all late with_flip) Reference () 1 "PauliX" [0]
      false [] s0
    = (Returned (), {| buffer := [(0, 0); (1, 0)]%Z; calls := 1 |})
  ∧ applyGenerator_name
      (register_all late (registerGeneratorOperation GeneratorRX Reference
                            (scale (-1)) fresh))
      Reference () 1 "RX" [0] false s0
    = (Returned (-1)%Z, {| buffer := buffer s0; calls := 1 |})
  ∧ applyMatrix_vec matrix_name
      (register_all late (registerMatrixOperation SingleQubitOp Reference
                            (stub 1) fresh))
      Reference () 1 identity2 [0] false s0
    = (Returned (), {| buffer := [(1, 0)]%Z; calls := 1 |}).
Proof.
  split_and!.
  - apply (proj1 (first_registration_wins matrix_name with_flip Reference [])
             PauliX flip keep).
    vm_compute. reflexivity.
  - destruct (first_registration_wins matrix_name fresh Reference late)
      as (_ & Hgate & _).
    unfold with_flip.
    rewrite (proj2 (Hgate PauliX flip ltac:(vm_compute; reflexivity)
                      () 1 [0] false [] s0) "PauliX");
      [reflexivity | vm_compute; reflexivity].
  - destruct (first_registration_wins matrix_name fresh Reference late)
      as (_ & _ & _ & Hgntr & _).
    rewrite (proj2 (Hgntr GeneratorRX (scale (-1))
                      ltac:(vm_compute; reflexivity) () 1 [0] false s0) "RX");
      [reflexivity | vm_compute; reflexivity].
  - destruct (first_registration_wins matrix_name fresh Reference late)
      as (_ & _ & _ & _ & _ & Hmat).
    rewrite (proj2 (Hmat SingleQubitOp (stub 1)
                      ltac:(vm_compute; reflexivity) () 1 identity2 [0] false s0
                      ltac:(reflexivity) ltac:(simpl; lia)));
      [reflexivity | reflexivity].
Defined.

(** C10 on the sample: [Reference] is named twice. *)
Lemma kernel_name_first_wins_witness :
  let named := registerKernelName Reference "first name" fresh in
  registerKernelName Reference "second name" named = named
  ∧ getKernelName (register_all late named) Reference = Returned "first name"
  ∧ length (filter (λ k, k = Reference)
              (registeredKernels (register_all late named))) = 1.
Proof.
  intros named. split; [|split].
  - apply (proj1 (kernel_name_first_wins named Reference [])
             "first name" "second name").
    vm_compute. reflexivity.
  - apply (proj2 (kernel_name_first_wins fresh Reference late) "first name").
    vm_compute. reflexivity.
  - apply (proj2 (kernel_name_first_wins fresh Reference late) "first name").
    vm_compute. reflexivity.
Defined.

(** C2 on the sample: [PauliX] exists under [Reference] only; asking for
    it under [Vectorized], or for [CNOT] under [Reference], gives the same
    fixed report. *)
Lemma missing_gate_kernel_report_witness :
  applyOperation with_flip Vectorized () 1 "PauliX" [0] false [] s0
  = (Thrown
       (invalid_argument
          "Cannot find a registered kernel for a given gate and kernel pair"),
     s0)
  ∧ applyOperation_op with_flip Reference () 2 CNOT [0; 1] false [] s0
    = (Thrown
         (invalid_argument
            "Cannot find a registered kernel for a given gate and kernel pair"),
       s0).
Proof.
  split.
  - apply (proj2 (missing_gate_kernel_report with_flip Vectorized () 1 [0]
                    false [] s0) "PauliX" PauliX);
      vm_compute; reflexivity.
  - apply (proj1 (missing_gate_kernel_report with_flip Reference () 2 [0; 1]
                    false [] s0) CNOT).
    vm_compute. reflexivity.
Defined.

(** C2 as stated fails: were the report to identify the operation and the
    kernel, two failing requests with the same report would be for the same
    pair.  ([PauliX], [Vectorized]) and ([CNOT], [Reference]) are both
    missing from [with_flip] and are reported alike. *)
Lemma missing_gate_kernel_report_ambiguous :
  ¬ (∀ (kernel kernel' : Kernel) (gate_op gate_op' : Gate) (e : exception),
       applyOperation_op with_flip kernel () 2 gate_op [0] false [] s0
       = (Thrown e, s0) →
       applyOperation_op with_flip kernel' () 2 gate_op' [0] false [] s0
       = (Thrown e, s0) →
       gate_op = gate_op' ∧ kernel = kernel').
Proof.
  intros Hidentifies.
  destruct (Hidentifies Vectorized Reference PauliX CNOT gate_kernel_missing)
    as [Hop _]; [vm_compute; reflexivity..|].
  discriminate Hop.
Qed.

(** C8 on the sample: the specification's unknown-operation scenario. *)
Lemma unknown_gate_name_fails_witness :
  hasGateOp with_flip "NotAGate" = false
  ∧ strToGateOp with_flip "NotAGate" = Thrown out_of_range
  ∧ applyOperation with_flip Reference () 1 "NotAGate" [0] false [] s0
    = (Thrown out_of_range, s0).
Proof.
  apply (unknown_gate_name_fails with_flip Reference () 1 "NotAGate" [0]
           false [] s0).
  vm_compute. reflexivity.
Defined.

(** C3 on the sample: three operations and two wire lists.  The counter of
    the store stays at zero. *)
Lemma count_mismatch_fails_fast_witness :
  applyOperations with_flip Reference () 1 ["PauliX"; "PauliX"; "PauliX"]
    [[0]; [0]] [false; false; false] [[]; []; []] s0
  = (Thrown count_mismatch, s0)
  ∧ applyOperations_noparams with_flip Reference () 1
      ["PauliX"; "PauliX"; "PauliX"] [[0]; [0]] [false; false; false] s0
    = (Thrown count_mismatch, s0)
  ∧ calls s0 = 0.
Proof.
  split; [|split; [|reflexivity]].
  - apply (proj1 (count_mismatch_fails_fast with_flip Reference () 1
                    ["PauliX"; "PauliX"; "PauliX"] [[0]; [0]]
                    [false; false; false] [[]; []; []] s0)).
    simpl. lia.
  - apply (proj2 (count_mismatch_fails_fast with_flip Reference () 1
                    ["PauliX"; "PauliX"; "PauliX"] [[0]; [0]]
                    [false; false; false] [[]; []; []] s0)).
    simpl. lia.
Defined.

(** C5 on the sample: one, two and three wires reach the stubs tagged 1, 2
    and 3. *)
Lemma matrix_operation_by_wire_count_witness :
  applyMatrix matrix_name with_stubs Reference () 3 identity2 [0] false s0
  = (Returned (), {| buffer := [(1, 0)]%Z; calls := 1 |})
  ∧ applyMatrix matrix_name with_stubs Reference () 3 identity2 [0; 1] false s0
    = (Returned (), {| buffer := [(2, 0)]%Z; calls := 1 |})
  ∧ applyMatrix matrix_name with_stubs Reference () 3 identity2 [0; 1; 2]
      false s0
    = (Returned (), {| buffer := [(3, 0)]%Z; calls := 1 |})
  ∧ applyMatrix_vec matrix_name with_stubs Reference () 3 identity2 [0] false s0
    = (Returned (), {| buffer := [(1, 0)]%Z; calls := 1 |}).
Proof.
  pose proof (λ wires,
    proj2 (matrix_operation_by_wire_count matrix_name with_stubs Reference
             () 3 identity2 wires false s0)) as Hchosen.
  split_and!.
  - exact (proj1 (proj1 (Hchosen [0] ltac:(simpl; lia)) (stub 1)
                    ltac:(vm_compute; reflexivity))).
  - exact (proj1 (proj1 (Hchosen [0; 1] ltac:(simpl; lia)) (stub 2)
                    ltac:(vm_compute; reflexivity))).
  - exact (proj1 (proj1 (Hchosen [0; 1; 2] ltac:(simpl; lia)) (stub 3)
                    ltac:(vm_compute; reflexivity))).
  - exact (proj2 (proj1 (Hchosen [0] ltac:(simpl; lia)) (stub 1)
                    ltac:(vm_compute; reflexivity)) eq_refl).
Defined.

(** C6 on the sample: three elements for one wire are refused, four are
    passed on. *)
Lemma matrix_size_checked_witness :
  applyMatrix_vec matrix_name with_stubs Reference () 1
    [(1, 0); (0, 0); (0, 0)]%Z [0] false s0
  = (Thrown matrix_size_mismatch, s0)
  ∧ applyMatrix_vec matrix_name with_stubs Reference () 1 identity2 [0] false s0
    = applyMatrix matrix_name with_stubs Reference () 1 identity2 [0] false s0.
Proof.
  split.
  - apply (proj1 (matrix_size_checked matrix_name with_stubs Reference () 1
                    [(1, 0); (0, 0); (0, 0)]%Z [0] false s0)).
    simpl. lia.
  - apply (proj2 (matrix_size_checked matrix_name with_stubs Reference () 1
                    identity2 [0] false s0)).
    reflexivity.
Defined.

(** C9 on the sample: one wire and no qubit stops at the assertion; one
    wire and one qubit reaches the registered stub. *)
Lemma wire_count_asserted_witness :
  applyMatrix matrix_name with_stubs Reference () 0 identity2 [0] false s0
  = (Aborted, s0)
  ∧ applyMatrix_vec matrix_name with_stubs Reference () 0 identity2 [0] false s0
    = (Aborted, s0)
  ∧ applyMatrix matrix_name with_stubs Reference () 1 identity2 [0] false s0
    = (Returned (), {| buffer := [(1, 0)]%Z; calls := 1 |}).
Proof.
  destruct (wire_count_asserted matrix_name with_stubs Reference () 0
              identity2 [0] false s0) as [Hstop _].
  destruct (Hstop ltac:(simpl; lia)) as [Hptr Hvec].
  split; [exact Hptr|]. split; [apply Hvec; reflexivity|].
  rewrite (proj2 (wire_count_asserted matrix_name with_stubs Reference () 1
                    identity2 [0] false s0) ltac:(simpl; lia)).
  reflexivity.
Defined.

(** C9 as stated fails for the vector form: with one wire, no qubit and an
    empty matrix the size check throws before the assertion is reached. *)
Lemma wire_count_size_check_first :
  ¬ (∀ (num_qubits : nat) (matrix : list (Z * Z)) (wires : list nat),
       num_qubits < length wires →
       (applyMatrix_vec matrix_name with_stubs Reference () num_qubits matrix
          wires false s0).1 = Aborted).
Proof.
  intros Hfatal. specialize (Hfatal 0 [] [0] ltac:(simpl; lia)).
  vm_compute in Hfatal. discriminate Hfatal.
Qed.

(** C4 on the sample.  A call for a kernel without [PauliX] fails and
    returns the store it was given.  In the batch [PauliX; RX; PauliX] the
    first entry runs [flip], the second has no callable: the batch ends
    with that failure, the buffer is the one [flip] left, and the counter
    shows that nothing ran afterwards. *)
Lemma failures_precede_mutation_witness :
  (∀ r s',
     applyOperation with_flip Vectorized () 1 "PauliX" [0] false [] s0
     = (r, s') →
     s' = s0)
  ∧ applyOperations with_flip Reference () 1 ["PauliX"; "RX"; "PauliX"]
      [[0]; [0]; [0]] [false; false; false] [[]; []; []] s0
    = (Thrown gate_kernel_missing,
       {| buffer := [(0, 0); (1, 0)]%Z; calls := 1 |})
  ∧ applyOperations_noparams with_flip Reference () 1 ["PauliX"; "PauliX"]
      [[0]; [0]] [false; false] s0
    = (Returned (), {| buffer := buffer s0; calls := 2 |}).
Proof.
  split; [|split].
  - intros r s' Hcall.
    destruct (failures_precede_mutation matrix_name with_flip Vectorized () 1 s0)
      as (_ & Hname & _).
    destruct (Hname "PauliX" [0] false [] r s' Hcall)
      as [[-> _]|(gate_op & func & _ & Hfunc & _)]; [reflexivity|].
    destruct gate_op; vm_compute in Hfunc; discriminate Hfunc.
  - destruct (failures_precede_mutation matrix_name with_flip Reference () 1 s0)
      as (_ & _ & _ & _ & _ & _ & Hbatch & _).
    destruct (Hbatch ["PauliX"; "RX"; "PauliX"] [[0]; [0]; [0]]
                [false; false; false] [[]; []; []] eq_refl eq_refl)
      as (_ & Hstops & _).
    apply (Hstops 1 {| buffer := [(0, 0); (1, 0)]%Z; calls := 1 |}).
    + simpl. lia.
    + apply (runs_upto_S _ 0 s0 s0); [apply runs_upto_O|].
      vm_compute. reflexivity.
    + vm_compute. reflexivity.
    + exact I.
  - destruct (failures_precede_mutation matrix_name with_flip Reference () 1 s0)
      as (_ & _ & _ & _ & _ & _ & _ & Hbatch).
    destruct (Hbatch ["PauliX"; "PauliX"] [[0]; [0]] [false; false] eq_refl)
      as (_ & _ & Hall).
    apply Hall.
    apply (runs_upto_S _ 1 s0 {| buffer := [(0, 0); (1, 0)]%Z; calls := 1 |}).
    + apply (runs_upto_S _ 0 s0 s0); [apply runs_upto_O|].
      vm_compute. reflexivity.
    + vm_compute. reflexivity.
Defined.

(** C7 on the sample catalogue. *)
Lemma catalogue_names_resolve_witness :
  ∃ d : Dispatcher,
    DynamicDispatcher_ctor gate_names generator_names = Returned d
    ∧ strToGateOp d "CNOT" = Returned CNOT
    ∧ strToGeneratorOp d "CRX" = Returned GeneratorCRX.
Proof.
  destruct (catalogue_names_resolve (KernelType := Kernel) (PrecisionT := Z)
              (CFP_ptr := unit) (mem := store) gate_names generator_names)
    as (d & Hctor & Hgate & Hgntr).
  - apply (bool_decide_unpack _). vm_compute. reflexivity.
  - apply (bool_decide_unpack _). vm_compute. reflexivity.
  - repeat constructor; eexists; reflexivity.
  - exists d. split; [exact Hctor|]. split.
    + apply Hgate. vm_compute. set_solver.
    + apply Hgntr. vm_compute. set_solver.
Defined.

End SampleRuns.

(** * Further properties of the registry *)

Section Introspection.

Context `{Countable KernelType, Countable Op} {F : Type}.
Implicit Types (kernels : gmap (Op * KernelType) F) (kernel : KernelType).

Lemma lookup_emplace_is_Some `{Countable K} {V} (m : gmap K V) k k' v :
  is_Some (emplace k v m !! k') ↔ k = k' ∨ is_Some (m !! k').
Proof.
  destruct (decide (k = k')) as [->|Hne].
  - split; [by left|]. intros _. destruct (m !! k') as [w|] eqn:Hk'.
    + rewrite emplace_occupied; rewrite Hk'; eauto.
    + rewrite lookup_emplace_free; eauto.
  - rewrite lookup_emplace_ne by done. tauto.
Qed.

(** The scan collects exactly the operations that have an entry under the
    kernel. *)
Lemma elem_of_operations_for_kernel kernels kernel (op : Op) :
  op ∈ operations_for_kernel kernels kernel
  ↔ is_Some (kernels !! (op, kernel)).
Proof.
  unfold operations_for_kernel. revert op.
  apply (map_fold_weak_ind (λ (ops : gset Op) (m : gmap (Op * KernelType) F),
           ∀ op, op ∈ ops ↔ is_Some (m !! (op, kernel)))).
  - intros op. rewrite lookup_empty, elem_of_empty.
    split; [done|by intros [? ?]].
  - intros [op' kernel'] func m ops Hfree IH op. simpl.
    rewrite lookup_insert_is_Some'. case_decide as Hk.
    + subst kernel'. rewrite elem_of_union, elem_of_singleton, IH.
      split; (intros [Heq|?]; [left; congruence|by right]).
    + rewrite IH. split; [by right|].
      intros [Heq|?]; [congruence|done].
Qed.

Lemma operations_for_kernel_emplace kernels kernel kernel' (op : Op) (func : F) :
  operations_for_kernel (emplace (op, kernel) func kernels) kernel'
  = if decide (kernel = kernel')
    then {[ op ]} ∪ operations_for_kernel kernels kernel'
    else operations_for_kernel kernels kernel'.
Proof.
  apply set_eq. intros op'.
  rewrite elem_of_operations_for_kernel, lookup_emplace_is_Some.
  case_decide as Hk.
  - subst kernel'.
    rewrite elem_of_union, elem_of_singleton, elem_of_operations_for_kernel.
    split; (intros [Heq|?]; [left; congruence|by right]).
  - rewrite elem_of_operations_for_kernel. split; [|by right].
    intros [Heq|?]; [congruence|done].
Qed.

End Introspection.

Lemma emplace_commute `{Countable K} {V} (m : gmap K V) k k' v v' :
  k ≠ k' → emplace k v (emplace k' v' m) = emplace k' v' (emplace k v m).
Proof.
  intros Hne.
  destruct (m !! k) as [w|] eqn:Hk; destruct (m !! k') as [w'|] eqn:Hk'.
  - rewrite (emplace_occupied m k'), (emplace_occupied m k) by eauto.
    by rewrite (emplace_occupied m k') by eauto.
  - rewrite (emplace_occupied m k) by eauto.
    rewrite (emplace_occupied (emplace k' v' m) k); [done|].
    rewrite lookup_emplace_ne by done. eauto.
  - rewrite (emplace_occupied m k') by eauto.
    rewrite (emplace_occupied (emplace k v m) k'); [done|].
    rewrite lookup_emplace_ne by done. eauto.
  - rewrite (emplace_free m k), (emplace_free m k') by done.
    rewrite !emplace_free by (by rewrite lookup_insert_ne).
    by rewrite insert_insert_ne.
Qed.

Section Coverage.

Context {GateOperation GeneratorOperation KernelType : Type}.
Context `{Countable GateOperation, Countable GeneratorOperation,
          Countable KernelType}.
Context {PrecisionT CFP_ptr mem : Type}.
Context (matrix_name : MatrixOperation → string).

#[local] Abbreviation Dispatcher :=
  (@DynamicDispatcher GateOperation GeneratorOperation KernelType
     _ _ _ _ _ _ PrecisionT CFP_ptr mem).
#[local] Abbreviation Registration :=
  (@registration GateOperation GeneratorOperation KernelType
     PrecisionT CFP_ptr mem).
#[local] Abbreviation GateFn := (@GateFunc PrecisionT CFP_ptr mem).
#[local] Abbreviation GeneratorFn := (@GeneratorFunc PrecisionT CFP_ptr mem).
#[local] Abbreviation MatrixFn := (@MatrixFunc PrecisionT CFP_ptr mem).
#[local] Abbreviation Complex := (@CFP_t PrecisionT).

Implicit Types (d : Dispatcher) (kernel : KernelType) (data : CFP_ptr).
Implicit Types (gate_op : GateOperation) (gntr_op : GeneratorOperation).
Implicit Types (mat : MatrixOperation) (s : mem).
Implicit Types (num_qubits : nat) (wires : list nat).
Implicit Types (params : list PrecisionT) (matrix : list Complex).

#[local] Ltac see_through :=
  unfold GateFunc, GeneratorFunc, MatrixFunc in *.

#[local] Ltac step_monad :=
  unfold mbind, M_bind, mret, M_ret, throw, lift; simpl.

(** ** Introspection *)

(** X1.  The three scans agree with the three [isRegistered] overloads: an
    operation is in the set returned for a kernel exactly when
    [isRegistered] holds for the pair. *)
Theorem scans_agree_with_isRegistered d kernel :
  (∀ gate_op,
     gate_op ∈ registeredGatesForKernel d kernel
     ↔ isRegistered d gate_op kernel = true)
  ∧ (∀ gntr_op,
       gntr_op ∈ registeredGeneratorsForKernel d kernel
       ↔ isRegistered_gntr d gntr_op kernel = true)
  ∧ (∀ mat,
       mat ∈ registeredMatricesForKernel d kernel
       ↔ isRegistered_mat d mat kernel = true).
Proof.
  split_and!; intros op;
    unfold registeredGatesForKernel, registeredGeneratorsForKernel,
      registeredMatricesForKernel, isRegistered, isRegistered_gntr,
      isRegistered_mat;
    by rewrite elem_of_operations_for_kernel, bool_decide_eq_true.
Qed.

(** X2.  What one registration does to the scans: registering an operation
    under a kernel adds that operation to the set of that kernel and of no
    other kernel, and a registration of another family, or of a kernel
    name, changes no set. *)
Theorem scans_after_registration (r : Registration) d kernel :
  registeredGatesForKernel (register r d) kernel
  = match r with
    | RegisterGate gate_op kernel' _ =>
        if decide (kernel' = kernel)
        then {[ gate_op ]} ∪ registeredGatesForKernel d kernel
        else registeredGatesForKernel d kernel
    | _ => registeredGatesForKernel d kernel
    end
  ∧ registeredGeneratorsForKernel (register r d) kernel
    = match r with
      | RegisterGenerator gntr_op kernel' _ =>
          if decide (kernel' = kernel)
          then {[ gntr_op ]} ∪ registeredGeneratorsForKernel d kernel
          else registeredGeneratorsForKernel d kernel
      | _ => registeredGeneratorsForKernel d kernel
      end
  ∧ registeredMatricesForKernel (register r d) kernel
    = match r with
      | RegisterMatrix mat kernel' _ =>
          if decide (kernel' = kernel)
          then {[ mat ]} ∪ registeredMatricesForKernel d kernel
          else registeredMatricesForKernel d kernel
      | _ => registeredMatricesForKernel d kernel
      end.
Proof.
  destruct r; split_and!; try done;
    unfold registeredGatesForKernel, registeredGeneratorsForKernel,
      registeredMatricesForKernel; simpl;
    apply operations_for_kernel_emplace.
Qed.

(** ** Registrations and the rest of the registry *)

Lemma register_gate_kernels_other (r : Registration) d gate_op kernel :
  (∀ func, r ≠ RegisterGate gate_op kernel func) →
  gate_kernels_ (register r d) !! (gate_op, kernel)
  = gate_kernels_ d !! (gate_op, kernel).
Proof.
  intros Hr. destruct r as [op' k' f| | |]; try done. simpl.
  apply lookup_emplace_ne. intros [= -> ->]. by apply (Hr f).
Qed.

Lemma register_generator_kernels_other (r : Registration) d gntr_op kernel :
  (∀ func, r ≠ RegisterGenerator gntr_op kernel func) →
  generator_kernels_ (register r d) !! (gntr_op, kernel)
  = generator_kernels_ d !! (gntr_op, kernel).
Proof.
  intros Hr. destruct r as [|op' k' f| |]; try done. simpl.
  apply lookup_emplace_ne. intros [= -> ->]. by apply (Hr f).
Qed.

Lemma register_matrix_kernels_other (r : Registration) d mat kernel :
  (∀ func, r ≠ RegisterMatrix mat kernel func) →
  matrix_kernels_ (register r d) !! (mat, kernel)
  = matrix_kernels_ d !! (mat, kernel).
Proof.
  intros Hr. destruct r as [| |op' k' f|]; try done. simpl.
  apply lookup_emplace_ne. intros [= -> ->]. by apply (Hr f).
Qed.

(** X3.  A registration touches one key of one table.  Unless it is the
    registration of that very (operation, kernel) pair, it changes neither
    [isRegistered] nor the result of dispatching the pair, for gates,
    generators and matrix operations alike; and unless it names that very
    kernel, it does not change the kernel's name. *)
Theorem registration_leaves_other_keys (r : Registration) d kernel data
    num_qubits s :
  (∀ gate_op wires inverse params,
     (∀ func, r ≠ RegisterGate gate_op kernel func) →
     isRegistered (register r d) gate_op kernel = isRegistered d gate_op kernel
     ∧ applyOperation_op (register r d) kernel data num_qubits gate_op wires
         inverse params s
       = applyOperation_op d kernel data num_qubits gate_op wires inverse
           params s)
  ∧ (∀ gntr_op wires adj,
       (∀ func, r ≠ RegisterGenerator gntr_op kernel func) →
       isRegistered_gntr (register r d) gntr_op kernel
       = isRegistered_gntr d gntr_op kernel
       ∧ applyGenerator (register r d) kernel data num_qubits gntr_op wires
           adj s
         = applyGenerator d kernel data num_qubits gntr_op wires adj s)
  ∧ (∀ matrix wires inverse,
       (∀ func, r ≠ RegisterMatrix (mat_op (length wires)) kernel func) →
       isRegistered_mat (register r d) (mat_op (length wires)) kernel
       = isRegistered_mat d (mat_op (length wires)) kernel
       ∧ applyMatrix matrix_name (register r d) kernel data num_qubits matrix
           wires inverse s
         = applyMatrix matrix_name d kernel data num_qubits matrix wires
             inverse s
       ∧ applyMatrix_vec matrix_name (register r d) kernel data num_qubits
           matrix wires inverse s
         = applyMatrix_vec matrix_name d kernel data num_qubits matrix wires
             inverse s)
  ∧ ((∀ name, r ≠ RegisterKernelName kernel name) →
     getKernelName (register r d) kernel = getKernelName d kernel
     ∧ isRegisteredKernel (register r d) kernel = isRegisteredKernel d kernel).
Proof.
  split_and!.
  - intros gate_op wires inverse params Hr.
    pose proof (register_gate_kernels_other r d gate_op kernel Hr) as Hsame.
    unfold isRegistered, applyOperation_op. see_through. by rewrite Hsame.
  - intros gntr_op wires adj Hr.
    pose proof (register_generator_kernels_other r d gntr_op kernel Hr)
      as Hsame.
    unfold isRegistered_gntr, applyGenerator. see_through. by rewrite Hsame.
  - intros matrix wires inverse Hr.
    pose proof (register_matrix_kernels_other r d _ kernel Hr) as Hsame.
    unfold isRegistered_mat, applyMatrix_vec, applyMatrix. see_through.
    by rewrite Hsame.
  - intros Hr. unfold getKernelName, isRegisteredKernel, map_at.
    destruct r as [| | |k' name]; try done. simpl.
    rewrite lookup_emplace_ne; [done|]. intros ->. by apply (Hr name).
Qed.

(** X4.  The kernel-name table.  [isRegisteredKernel] tells whether
    [getKernelName] returns or throws [std::out_of_range];
    [registeredKernels] lists exactly the kernels for which it holds, each
    once, so its length is the number of named kernels. *)
Theorem kernel_names_consistent d kernel :
  (isRegisteredKernel d kernel = true
   ↔ ∃ name, getKernelName d kernel = Returned name)
  ∧ (isRegisteredKernel d kernel = false
     ↔ getKernelName d kernel = Thrown out_of_range)
  ∧ (kernel ∈ registeredKernels d ↔ isRegisteredKernel d kernel = true)
  ∧ NoDup (registeredKernels d)
  ∧ length (registeredKernels d) = size (kernel_names_ d).
Proof.
  unfold isRegisteredKernel, getKernelName, map_at, registeredKernels.
  split_and!.
  - rewrite bool_decide_eq_true.
    destruct (kernel_names_ d !! kernel) as [name|]; split.
    + eauto.
    + eauto.
    + by intros [? ?].
    + by intros [? ?].
  - rewrite bool_decide_eq_false.
    destruct (kernel_names_ d !! kernel) as [name|]; split; try done.
    intros Hn. destruct Hn. eauto.
  - rewrite bool_decide_eq_true, list_elem_of_fmap. split.
    + intros ([k name] & -> & Hin). apply elem_of_map_to_list in Hin. eauto.
    + intros [name Hname]. exists (kernel, name).
      by rewrite elem_of_map_to_list.
  - apply NoDup_fst_map_to_list.
  - by rewrite length_fmap, length_map_to_list.
Qed.

(** X5.  Registrations of different keys commute: the order of two
    registrations matters only when both are for the same key of the same
    table.  Repeating a registration changes nothing. *)
Theorem registrations_commute (r1 r2 : Registration) d :
  match r1, r2 with
  | RegisterGate op1 k1 _, RegisterGate op2 k2 _ => (op1, k1) ≠ (op2, k2)
  | RegisterGenerator op1 k1 _, RegisterGenerator op2 k2 _ =>
      (op1, k1) ≠ (op2, k2)
  | RegisterMatrix op1 k1 _, RegisterMatrix op2 k2 _ => (op1, k1) ≠ (op2, k2)
  | RegisterKernelName k1 _, RegisterKernelName k2 _ => k1 ≠ k2
  | _, _ => True
  end →
  register r1 (register r2 d) = register r2 (register r1 d)
  ∧ register r1 (register r1 d) = register r1 d.
Proof.
  intros Hkeys. split.
  - destruct r1, r2; try reflexivity; simpl;
      unfold registerGateOperation, registerGeneratorOperation,
        registerMatrixOperation, registerKernelName; simpl;
      f_equal; by apply emplace_commute.
  - destruct r1; simpl;
      unfold registerGateOperation, registerGeneratorOperation,
        registerMatrixOperation, registerKernelName; simpl;
      f_equal; apply emplace_idemp.
Qed.

(** X6.  Nothing is ever removed and the name tables are never written
    after construction: whatever registrations are run, a pair that was
    registered stays registered, a named kernel stays named, and the
    translation of every gate and generator name is what it was. *)
Theorem registrations_only_add (rs : list Registration) d :
  (∀ gate_op kernel,
     isRegistered d gate_op kernel = true →
     isRegistered (register_all rs d) gate_op kernel = true)
  ∧ (∀ gntr_op kernel,
       isRegistered_gntr d gntr_op kernel = true →
       isRegistered_gntr (register_all rs d) gntr_op kernel = true)
  ∧ (∀ mat kernel,
       isRegistered_mat d mat kernel = true →
       isRegistered_mat (register_all rs d) mat kernel = true)
  ∧ (∀ kernel,
       isRegisteredKernel d kernel = true →
       isRegisteredKernel (register_all rs d) kernel = true)
  ∧ (∀ name,
       strToGateOp (register_all rs d) name = strToGateOp d name
       ∧ hasGateOp (register_all rs d) name = hasGateOp d name
       ∧ strToGeneratorOp (register_all rs d) name = strToGeneratorOp d name).
Proof.
  unfold isRegistered, isRegistered_gntr, isRegistered_mat, isRegisteredKernel.
  split_and!.
  - intros gate_op kernel. rewrite !bool_decide_eq_true. intros [func Hf].
    exists func. by apply register_all_gate_kernels_Some.
  - intros gntr_op kernel. rewrite !bool_decide_eq_true. intros [func Hf].
    exists func. by apply register_all_generator_kernels_Some.
  - intros mat kernel. rewrite !bool_decide_eq_true. intros [func Hf].
    exists func. by apply register_all_matrix_kernels_Some.
  - intros kernel. rewrite !bool_decide_eq_true. intros [name Hname].
    exists name. by apply register_all_kernel_names_Some.
  - intros name. unfold strToGateOp, hasGateOp, strToGeneratorOp.
    by rewrite register_all_str_to_gates, register_all_str_to_gntrs.
Qed.

(** ** Construction *)


Lemma length_string_append (front bare : string) :
  String.length (front +:+ bare) = String.length front + String.length bare.
Proof. induction front as [|c front IH]; [done|]. simpl. by rewrite IH. Qed.

Lemma strip_prefixes_Returned {Op} (names res : list (Op * string)) :
  strip_prefixes names = Returned res →
  res = (λ entry, (entry.1, string_suffix (String.length prefix) entry.2))
          <$> names.
Proof.
  revert res. induction names as [|[op name] names IH]; intros res Hres.
  { by injection Hres as <-. }
  rewrite strip_prefixes_cons in Hres. unfold substr in Hres.
  case_decide; [|done]. simpl in Hres.
  destruct (strip_prefixes names) as [res'| | |]; try done.
  injection Hres as <-. by rewrite (IH res').
Qed.



Lemma emplace_names_app {Op} (names1 names2 : list (Op * string))
    (m : gmap string Op) :
  emplace_names (names1 ++ names2) m
  = emplace_names names2 (emplace_names names1 m).
Proof. apply foldl_app. Qed.

Lemma emplace_names_is_Some {Op} (names : list (Op * string))
    (m : gmap string Op) (N : string) :
  is_Some (emplace_names names m !! N) ↔ is_Some (m !! N) ∨ N ∈ names.*2.
Proof.
  revert m. induction names as [|[op name] names IH]; intros m.
  { simpl. rewrite elem_of_nil. tauto. }
  rewrite emplace_names_cons, IH, lookup_emplace_is_Some, fmap_cons,
    elem_of_cons. simpl. split.
  - intros [[->|?]|?]; auto.
  - intros [?|[->|?]]; auto.
Qed.

Lemma emplace_names_absent {Op} (names : list (Op * string))
    (m : gmap string Op) (N : string) :
  N ∉ names.*2 → emplace_names names m !! N = m !! N.
Proof.
  revert m. induction names as [|[op name] names IH]; intros m Hnot; [done|].
  rewrite fmap_cons, not_elem_of_cons in Hnot. destruct Hnot as [Hne Hnot].
  rewrite emplace_names_cons, IH by done. simpl.
  by rewrite lookup_emplace_ne.
Qed.

(** The first entry that carries a name decides what the name maps to. *)
Lemma emplace_names_first {Op} (before after : list (Op * string)) (op : Op)
    (N : string) (m : gmap string Op) :
  m !! N = None →
  N ∉ before.*2 →
  emplace_names (before ++ (op, N) :: after) m !! N = Some op.
Proof.
  intros Hm Hbefore. rewrite emplace_names_app, emplace_names_cons.
  apply emplace_names_lookup_Some. simpl. apply lookup_emplace_free.
  by rewrite emplace_names_absent.
Qed.

Lemma ctor_Returned (gate_names : list (GateOperation * string))
    (generator_names : list (GeneratorOperation * string)) d :
  DynamicDispatcher_ctor gate_names generator_names = Returned d →
  d = {| str_to_gates_ := emplace_names gate_names ∅;
         str_to_gntrs_ :=
           emplace_names
             ((λ entry, (entry.1,
                         string_suffix (String.length prefix) entry.2))
                <$> generator_names) ∅;
         gate_kernels_ := ∅;
         generator_kernels_ := ∅;
         matrix_kernels_ := ∅;
         kernel_names_ := ∅ |}.
Proof.
  unfold DynamicDispatcher_ctor, generatorNamesWithoutPrefix.
  destruct (strip_prefixes generator_names) as [res| | |] eqn:Hres; try done.
  simpl. intros [= <-]. by rewrite (strip_prefixes_Returned _ _ Hres).
Qed.

Lemma stripped_names {Op} (names : list (Op * string)) :
  ((λ entry, (entry.1, string_suffix (String.length prefix) entry.2))
     <$> names).*2
  = string_suffix (String.length prefix) <$> names.*2.
Proof. induction names as [|[op name] names IH]; [done|]. simpl. by f_equal. Qed.

Lemma constructed_names_known (gate_names : list (GateOperation * string))
    (generator_names : list (GeneratorOperation * string)) d :
  DynamicDispatcher_ctor gate_names generator_names = Returned d →
  (∀ N, N ∈ gate_names.*2 → is_Some (str_to_gates_ d !! N))
  ∧ (∀ X,
       X ∈ string_suffix (String.length prefix) <$> generator_names.*2 →
       is_Some (str_to_gntrs_ d !! X)).
Proof.
  intros Hctor. apply ctor_Returned in Hctor. subst d.
  cbn [str_to_gates_ str_to_gntrs_]. split.
  - intros N HN. apply emplace_names_is_Some. by right.
  - intros X HX. apply emplace_names_is_Some. right. by rewrite stripped_names.
Qed.

(** X7.  The name tables of a constructed dispatcher, for any catalogue.
    A gate name is known exactly when some entry of [gate_names] carries it;
    when several entries carry the same name the first one decides the
    enumerator; a name no entry carries makes [strToGateOp] throw.  The
    generator table is the same over the names with their first
    [prefix.size()] characters removed. *)
Theorem constructed_name_tables (gate_names : list (GateOperation * string))
    (generator_names : list (GeneratorOperation * string)) d :
  DynamicDispatcher_ctor gate_names generator_names = Returned d →
  (∀ N, hasGateOp d N = true ↔ N ∈ gate_names.*2)
  ∧ (∀ before gate_op N after,
       gate_names = before ++ (gate_op, N) :: after →
       N ∉ before.*2 →
       strToGateOp d N = Returned gate_op)
  ∧ (∀ N, N ∉ gate_names.*2 → strToGateOp d N = Thrown out_of_range)
  ∧ (∀ before gntr_op name after,
       generator_names = before ++ (gntr_op, name) :: after →
       string_suffix (String.length prefix) name
         ∉ string_suffix (String.length prefix) <$> before.*2 →
       strToGeneratorOp d (string_suffix (String.length prefix) name)
       = Returned gntr_op)
  ∧ (∀ X,
       X ∉ string_suffix (String.length prefix) <$> generator_names.*2 →
       strToGeneratorOp d X = Thrown out_of_range).
Proof.
  intros Hctor. apply ctor_Returned in Hctor. subst d.
  unfold hasGateOp, strToGateOp, strToGeneratorOp, map_at.
  cbn [str_to_gates_ str_to_gntrs_]. split_and!.
  - intros N. rewrite bool_decide_eq_true, emplace_names_is_Some.
    rewrite lookup_empty. split; [|by right].
    intros [[? ?]|?]; done.
  - intros before gate_op N after -> Hfirst.
    by rewrite emplace_names_first.
  - intros N Hnot. by rewrite emplace_names_absent, lookup_empty.
  - intros before gntr_op name after -> Hfirst.
    rewrite fmap_app, fmap_cons.
    rewrite <- stripped_names in Hfirst.
    by rewrite (emplace_names_first _ _ gntr_op).
  - intros X Hnot. rewrite emplace_names_absent, lookup_empty; [done|].
    by rewrite stripped_names.
Qed.

(** X8.  A dispatcher that has just been constructed holds no callable and
    no kernel name: the scans are empty, and dispatching any catalogued gate
    by name, or any matrix, reports a missing kernel and leaves the store
    alone. *)
Theorem constructed_registry_empty (gate_names : list (GateOperation * string))
    (generator_names : list (GeneratorOperation * string)) d kernel :
  DynamicDispatcher_ctor gate_names generator_names = Returned d →
  registeredKernels d = []
  ∧ registeredGatesForKernel d kernel = ∅
  ∧ registeredGeneratorsForKernel d kernel = ∅
  ∧ registeredMatricesForKernel d kernel = ∅
  ∧ (∀ data num_qubits N wires inverse params s,
       N ∈ gate_names.*2 →
       applyOperation d kernel data num_qubits N wires inverse params s
       = (Thrown gate_kernel_missing, s))
  ∧ (∀ data num_qubits gntr_op wires adj s,
       applyGenerator d kernel data num_qubits gntr_op wires adj s
       = (Thrown generator_kernel_missing, s))
  ∧ (∀ data num_qubits matrix wires inverse s,
       length wires ≤ num_qubits →
       applyMatrix matrix_name d kernel data num_qubits matrix wires inverse s
       = (Thrown (matrix_kernel_missing matrix_name (mat_op (length wires))),
          s)).
Proof.
  intros Hctor.
  pose proof (proj1 (constructed_names_known _ _ _ Hctor)) as Hknown.
  apply ctor_Returned in Hctor. subst d. split_and!; try done.
  - intros data num_qubits N wires inverse params s HN.
    apply Hknown in HN as [gate_op Hop].
    rewrite (applyOperation_known _ _ _ _ _ gate_op) by done.
    by apply applyOperation_op_missing.
  - intros. by apply applyMatrix_missing.
Qed.


(** X15.  Dispatch by name and dispatch by enumerator agree on a
    dispatcher built from a catalogue with pairwise distinct names, whatever
    registrations followed: a catalogued gate name runs what its enumerator
    runs, and a generator name without its first [prefix.size()] characters
    runs what the generator's enumerator runs. *)
Theorem name_and_enumerator_agree (gate_names : list (GateOperation * string))
    (generator_names : list (GeneratorOperation * string)) d
    (rs : list Registration) kernel data num_qubits wires s :
  DynamicDispatcher_ctor gate_names generator_names = Returned d →
  (NoDup gate_names.*2 →
   ∀ gate_op N inverse params,
     (gate_op, N) ∈ gate_names →
     applyOperation (register_all rs d) kernel data num_qubits N wires inverse
       params s
     = applyOperation_op (register_all rs d) kernel data num_qubits gate_op
         wires inverse params s)
  ∧ (NoDup (string_suffix (String.length prefix) <$> generator_names.*2) →
     ∀ gntr_op name adj,
       (gntr_op, name) ∈ generator_names →
       applyGenerator_name (register_all rs d) kernel data num_qubits
         (string_suffix (String.length prefix) name) wires adj s
       = applyGenerator (register_all rs d) kernel data num_qubits gntr_op
           wires adj s).
Proof.
  intros Hctor. apply ctor_Returned in Hctor. split.
  - intros Hnd gate_op N inverse params Hin.
    apply applyOperation_known. rewrite register_all_str_to_gates. subst d.
    cbn [str_to_gates_]. by apply emplace_names_lookup.
  - intros Hnd gntr_op name adj Hin.
    apply applyGenerator_name_known. rewrite register_all_str_to_gntrs.
    subst d. cbn [str_to_gntrs_]. apply emplace_names_lookup.
    + by rewrite stripped_names.
    + done.
    + by apply (list_elem_of_fmap_2
                  (λ entry : GeneratorOperation * string,
                     (entry.1,
                      string_suffix (String.length prefix) entry.2))
                  _ (gntr_op, name)).
Qed.

(** ** Dispatch *)

(** X13.  [isRegistered] predicts dispatch.  Where it is [false] the call
    reports the missing kernel and leaves the store alone (for a matrix,
    once the assertion has passed); where it is [true] the call is the call
    of a registered callable, whose result, for a generator its scalar, is
    returned as it is. *)
Theorem isRegistered_predicts_dispatch d kernel data num_qubits s :
  (∀ gate_op wires inverse params,
     (isRegistered d gate_op kernel = false →
      applyOperation_op d kernel data num_qubits gate_op wires inverse params s
      = (Thrown gate_kernel_missing, s))
     ∧ (isRegistered d gate_op kernel = true →
        ∃ func : GateFn,
          gate_kernels_ d !! (gate_op, kernel) = Some func
          ∧ applyOperation_op d kernel data num_qubits gate_op wires inverse
              params s
            = func data num_qubits wires inverse params s))
  ∧ (∀ gntr_op wires adj,
       (isRegistered_gntr d gntr_op kernel = false →
        applyGenerator d kernel data num_qubits gntr_op wires adj s
        = (Thrown generator_kernel_missing, s))
       ∧ (isRegistered_gntr d gntr_op kernel = true →
          ∃ func : GeneratorFn,
            generator_kernels_ d !! (gntr_op, kernel) = Some func
            ∧ applyGenerator d kernel data num_qubits gntr_op wires adj s
              = func data num_qubits wires adj s))
  ∧ (∀ matrix wires inverse,
       length wires ≤ num_qubits →
       (isRegistered_mat d (mat_op (length wires)) kernel = false →
        applyMatrix matrix_name d kernel data num_qubits matrix wires inverse s
        = (Thrown (matrix_kernel_missing matrix_name (mat_op (length wires))),
           s))
       ∧ (isRegistered_mat d (mat_op (length wires)) kernel = true →
          ∃ func : MatrixFn,
            matrix_kernels_ d !! (mat_op (length wires), kernel) = Some func
            ∧ applyMatrix matrix_name d kernel data num_qubits matrix wires
                inverse s
              = func data num_qubits matrix wires inverse s)).
Proof.
  unfold isRegistered, isRegistered_gntr, isRegistered_mat.
  split_and!.
  - intros gate_op wires inverse params. split.
    + rewrite bool_decide_eq_false, <- eq_None_not_Some.
      apply applyOperation_op_missing.
    + rewrite bool_decide_eq_true. intros [func Hf]. exists func.
      split; [done|]. by apply applyOperation_op_registered.
  - intros gntr_op wires adj. split.
    + rewrite bool_decide_eq_false, <- eq_None_not_Some.
      apply applyGenerator_missing.
    + rewrite bool_decide_eq_true. intros [func Hf]. exists func.
      split; [done|]. by apply applyGenerator_registered.
  - intros matrix wires inverse Hle. split.
    + rewrite bool_decide_eq_false, <- eq_None_not_Some.
      by apply applyMatrix_missing.
    + rewrite bool_decide_eq_true. intros [func Hf]. exists func.
      split; [done|]. by apply applyMatrix_registered.
Qed.

(** X14.  Generators by name.  A name found in [str_to_gntrs_] is
    dispatched as its enumerator is; a name that is not there makes
    [applyGenerator] throw the [std::out_of_range] of [strToGeneratorOp]
    before the generator mapping is searched, with the store unchanged. *)
Theorem generator_name_dispatch d kernel data num_qubits op_name wires adj s :
  (∀ gntr_op,
     strToGeneratorOp d op_name = Returned gntr_op →
     applyGenerator_name d kernel data num_qubits op_name wires adj s
     = applyGenerator d kernel data num_qubits gntr_op wires adj s)
  ∧ (str_to_gntrs_ d !! op_name = None →
     strToGeneratorOp d op_name = Thrown out_of_range
     ∧ applyGenerator_name d kernel data num_qubits op_name wires adj s
       = (Thrown out_of_range, s)).
Proof.
  split.
  - intros gntr_op Hop. apply applyGenerator_name_known.
    unfold strToGeneratorOp, map_at in Hop.
    destruct (str_to_gntrs_ d !! op_name); by simplify_eq.
  - intros Hname. split.
    + unfold strToGeneratorOp, map_at. by rewrite Hname.
    + by apply applyGenerator_name_unknown.
Qed.

Lemma string_append_cancel_r (front front' tail : string) :
  front +:+ tail = front' +:+ tail → front = front'.
Proof.
  revert front'. induction front as [|c front IH]; intros [|c' front'] Heq.
  - done.
  - apply (f_equal String.length) in Heq.
    rewrite !length_string_append in Heq. simpl in Heq. lia.
  - apply (f_equal String.length) in Heq.
    rewrite !length_string_append in Heq. simpl in Heq. lia.
  - simpl in Heq. injection Heq as -> Heq. f_equal. by apply IH.
Qed.

(** X16.  The report of a missing matrix kernel is the display name of the
    matrix operation followed by a fixed text.  With distinct display names
    two reports are equal only for the same matrix operation; the kernel
    that was asked for does not appear in the report. *)
Theorem matrix_report_names_operation d d' kernel kernel' data data'
    num_qubits num_qubits' matrix matrix' wires wires' inverse inverse' s s' :
  Inj (=) (=) matrix_name →
  length wires ≤ num_qubits →
  length wires' ≤ num_qubits' →
  matrix_kernels_ d !! (mat_op (length wires), kernel) = None →
  matrix_kernels_ d' !! (mat_op (length wires'), kernel') = None →
  ((applyMatrix matrix_name d kernel data num_qubits matrix wires inverse s).1
   = (applyMatrix matrix_name d' kernel' data' num_qubits' matrix' wires'
        inverse' s').1
   ↔ mat_op (length wires) = mat_op (length wires')).
Proof.
  intros Hinj Hle Hle' Hmiss Hmiss'.
  rewrite !applyMatrix_missing by done. simpl. unfold matrix_kernel_missing.
  split.
  - intros [= Heq]. by apply string_append_cancel_r, Hinj in Heq.
  - by intros ->.
Qed.

(** X17.  Edge cases of the matrix forms.  The vector form refuses an empty
    matrix for every list of wires, since a power of four is never zero;
    with no wires at all it asks for exactly one element.  A call with no
    wires always passes the assertion and is served by the multi-qubit
    operation. *)
Theorem matrix_edge_cases d kernel data num_qubits inverse s :
  (∀ wires,
     applyMatrix_vec matrix_name d kernel data num_qubits [] wires inverse s
     = (Thrown matrix_size_mismatch, s))
  ∧ (∀ matrix,
       length matrix ≠ 1 →
       applyMatrix_vec matrix_name d kernel data num_qubits matrix [] inverse s
       = (Thrown matrix_size_mismatch, s))
  ∧ (∀ matrix,
       applyMatrix matrix_name d kernel data num_qubits matrix [] inverse s
       = match matrix_kernels_ d !! (MultiQubitOp, kernel) with
         | Some func => func data num_qubits matrix [] inverse s
         | None => (Thrown (matrix_kernel_missing matrix_name MultiQubitOp), s)
         end).
Proof.
  split_and!.
  - intros wires. apply applyMatrix_vec_missized. simpl.
    pose proof (Nat.pow_nonzero 4 (length wires)). lia.
  - intros matrix Hlen. by apply applyMatrix_vec_missized.
  - intros matrix.
    destruct (matrix_kernels_ d !! (MultiQubitOp, kernel)) as [func|] eqn:Hf.
    + apply applyMatrix_registered; [simpl; lia|done].
    + apply (applyMatrix_missing matrix_name d kernel data num_qubits matrix []);
        [simpl; lia|done].
Qed.

(** ** Batches *)

Lemma for_range_ext (body body' : nat → M unit) start start' count s :
  (∀ i s1, i < count → body (start + i) s1 = body' (start' + i) s1) →
  for_range start count body s = for_range start' count body' s.
Proof.
  revert start start' s. induction count as [|count IH]; intros start start' s Hbody;
    [done|].
  simpl. step_monad.
  pose proof (Hbody 0 s ltac:(lia)) as Hfirst.
  rewrite !Nat.add_0_r in Hfirst.
  rewrite Hfirst. destruct (body' start' s) as [[[]| | |] s1]; try done.
  apply IH. intros i s2 Hi.
  pose proof (Hbody (S i) s2 ltac:(lia)) as HS.
  by rewrite !Nat.add_succ_r in HS.
Qed.

Lemma index_app_l {A} (l1 l2 : list A) i :
  i < length l1 → index (l1 ++ l2) i = index l1 i.
Proof. intros Hi. unfold index. by rewrite lookup_app_l. Qed.

Lemma index_app_r {A} (l1 l2 : list A) n i :
  length l1 = n → index (l1 ++ l2) (n + i) = index l2 i.
Proof.
  intros <-. unfold index. rewrite lookup_app_r by lia.
  by replace (length l1 + i - length l1) with i by lia.
Qed.

(** X10.  A batch over concatenated sequences is the batch over the first
    parts followed, if that one returns, by the batch over the second parts
    on the store the first one left. *)
Theorem batch_concatenation d kernel data num_qubits
    (ops1 ops2 : list string) (wires1 wires2 : list (list nat))
    (inverse1 inverse2 : list bool)
    (params1 params2 : list (list PrecisionT)) s :
  length ops1 = length wires1 →
  length ops1 = length inverse1 →
  length ops1 = length params1 →
  length ops2 = length wires2 →
  length ops2 = length params2 →
  applyOperations d kernel data num_qubits (ops1 ++ ops2) (wires1 ++ wires2)
    (inverse1 ++ inverse2) (params1 ++ params2) s
  = match applyOperations d kernel data num_qubits ops1 wires1 inverse1
            params1 s with
    | (Returned _, s1) =>
        applyOperations d kernel data num_qubits ops2 wires2 inverse2 params2 s1
    | failed => failed
    end.
Proof.
  intros Hw1 Hi1 Hp1 Hw2 Hp2. unfold applyOperations.
  rewrite !length_app.
  rewrite !(bool_decide_eq_false_2 (_ ≠ _)) by lia. simpl.
  rewrite for_range_app. step_monad.
  rewrite (for_range_ext _
             (apply_nth d kernel data num_qubits ops1 wires1 inverse1 params1)
             0 0).
  2:{ intros i s1 Hi. simpl. unfold apply_nth.
      by rewrite !index_app_l by lia. }
  destruct (for_range 0 (length ops1) _ s) as [[[]| | |] s1]; try done.
  apply for_range_ext. intros i s2 Hi. simpl. unfold apply_nth.
  by rewrite !(index_app_r _ _ (length ops1)) by done.
Qed.

(** X11.  The two [applyOperations] overloads agree: the form without
    parameters does what the form with parameters does when every
    operation is given the empty parameter list, on every input, the
    mismatched ones included.  A batch of one entry is the single call. *)
Theorem batch_overloads_agree d kernel data num_qubits (ops : list string)
    (wires : list (list nat)) (inverse : list bool) s :
  applyOperations_noparams d kernel data num_qubits ops wires inverse s
  = applyOperations d kernel data num_qubits ops wires inverse
      (replicate (length ops) []) s
  ∧ (∀ op w inv p,
       applyOperations d kernel data num_qubits [op] [w] [inv] [p] s
       = applyOperation d kernel data num_qubits op w inv p s)
  ∧ (∀ op w inv,
       applyOperations_noparams d kernel data num_qubits [op] [w] [inv] s
       = applyOperation d kernel data num_qubits op w inv [] s).
Proof.
  split_and!.
  - unfold applyOperations_noparams, applyOperations.
    rewrite length_replicate.
    rewrite (bool_decide_eq_false_2 (length ops ≠ length ops)) by auto.
    rewrite orb_false_r. case_bool_decide; [done|].
    apply for_range_ext. intros i s1 Hi. simpl.
    unfold apply_nth_noparams, apply_nth, index.
    rewrite (lookup_replicate_2 (length ops) []) by done.
    by destruct (ops !! i), (wires !! i), (inverse !! i).
  - intros op w inv p. unfold applyOperations. simpl. step_monad.
    unfold apply_nth. simpl. step_monad.
    by destruct (applyOperation d kernel data num_qubits op w inv p s)
      as [[[]| | |] s1].
  - intros op w inv. unfold applyOperations_noparams. simpl. step_monad.
    unfold apply_nth_noparams. simpl. step_monad.
    by destruct (applyOperation d kernel data num_qubits op w inv [] s)
      as [[[]| | |] s1].
Qed.

(** X12.  The length of [inverse] is not checked.  When it is shorter than
    the other sequences and the entries that have a flag all return, the
    loop goes on to read [inverse] past its end, which has no defined
    behaviour; the entries before that have run. *)
Theorem short_inverse_read_past_end d kernel data num_qubits
    (ops : list string) (wires : list (list nat)) (inverse : list bool)
    (params : list (list PrecisionT)) s s_i :
  length ops = length wires →
  length inverse < length ops →
  (length wires = length params →
   runs_upto (apply_nth d kernel data num_qubits ops wires inverse params)
     (length inverse) s s_i →
   applyOperations d kernel data num_qubits ops wires inverse params s
   = (Undefined, s_i))
  ∧ (runs_upto (apply_nth_noparams d kernel data num_qubits ops wires inverse)
       (length inverse) s s_i →
     applyOperations_noparams d kernel data num_qubits ops wires inverse s
     = (Undefined, s_i)).
Proof.
  intros Hw Hshort.
  destruct (lookup_lt_is_Some_2 ops (length inverse) Hshort) as [op Hop].
  destruct (lookup_lt_is_Some_2 wires (length inverse) ltac:(lia)) as [w Hwi].
  assert (inverse !! length inverse = None) as Hinv
    by by apply lookup_ge_None.
  split.
  - intros Hp Hruns. unfold applyOperations.
    rewrite !(bool_decide_eq_false_2 (_ ≠ _)) by lia. simpl.
    apply (for_range_stops _ _ (length inverse) _ s_i); [done|done| |done].
    unfold apply_nth, index. by rewrite Hop, Hwi, Hinv.
  - intros Hruns. unfold applyOperations_noparams.
    rewrite !(bool_decide_eq_false_2 (_ ≠ _)) by lia.
    apply (for_range_stops _ _ (length inverse) _ s_i); [done|done| |done].
    unfold apply_nth_noparams, index. by rewrite Hop, Hwi, Hinv.
Qed.

End Coverage.

(** * The further properties on the sample instance *)

Section CoverageRuns.

Import Sample.

Lemma clashing_constructed :
  DynamicDispatcher_ctor clashing_gates clashing_generators = Returned clashing.
Proof. vm_compute. reflexivity. Qed.

Lemma matrix_name_inj : Inj (=) (=) matrix_name.
Proof. intros [] [] Heq; (reflexivity || discriminate Heq). Qed.

(** X3 on the sample: registering [CNOT] under [Vectorized] does not change
    the dispatch of ([PauliX], [Reference]). *)
Lemma registration_leaves_other_keys_witness :
  applyOperation_op (register (RegisterGate CNOT Vectorized keep) with_flip)
    Reference () 1 PauliX [0] false [] s0
  = applyOperation_op with_flip Reference () 1 PauliX [0] false [] s0.
Proof.
  apply (proj1 (registration_leaves_other_keys matrix_name
                  (RegisterGate CNOT Vectorized keep) with_flip Reference
                  () 1 s0)).
  intros func Heq. discriminate Heq.
Defined.

(** X5 on the sample: two registrations of different gate keys in both
    orders. *)
Lemma registrations_commute_witness :
  register (RegisterGate PauliX Reference flip)
    (register (RegisterGate CNOT Vectorized keep) fresh)
  = register (RegisterGate CNOT Vectorized keep)
      (register (RegisterGate PauliX Reference flip) fresh).
Proof.
  apply (registrations_commute (RegisterGate PauliX Reference flip)
           (RegisterGate CNOT Vectorized keep) fresh).
  intros Heq. discriminate Heq.
Defined.

(** X6 on the sample: ([PauliX], [Reference]) is still registered after
    [late]. *)
Lemma registrations_only_add_witness :
  isRegistered (register_all late with_flip) PauliX Reference = true.
Proof.
  apply (proj1 (registrations_only_add late with_flip)).
  vm_compute. reflexivity.
Defined.

(** X7 on the sample: in [clashing_gates] the name ["X"] belongs to [PauliX]
    first, and the generator name ["123456789RX"] is reached as ["RX"]. *)
Lemma constructed_name_tables_witness :
  strToGateOp clashing "X" = Returned PauliX
  ∧ strToGateOp clashing "RX" = Thrown out_of_range
  ∧ strToGeneratorOp clashing "RX" = Returned GeneratorRX.
Proof.
  destruct (constructed_name_tables clashing_gates clashing_generators
              clashing ltac:(vm_compute; reflexivity))
    as (_ & Hfirst & Hnone & Hgntr & _).
  split; [|split].
  - apply (Hfirst [] PauliX "X" [(RX, "X"); (CNOT, "CNOT")]);
      [reflexivity | apply not_elem_of_nil].
  - apply Hnone. vm_compute. intros Hin.
    repeat (apply elem_of_cons in Hin as [Hin|Hin]; [discriminate Hin|]).
    by apply elem_of_nil in Hin.
  - apply (Hgntr [] GeneratorRX "123456789RX"
             [(GeneratorCRX, "GeneratorRX")]);
      [reflexivity | apply not_elem_of_nil].
Defined.

(** X8 on the sample: right after construction [PauliX] cannot be
    applied. *)
Lemma constructed_registry_empty_witness :
  registeredKernels fresh = []
  ∧ applyOperation fresh Reference () 1 "PauliX" [0] false [] s0
    = (Thrown gate_kernel_missing, s0).
Proof.
  destruct (constructed_registry_empty matrix_name gate_names generator_names
              fresh Reference ltac:(vm_compute; reflexivity))
    as (Hkernels & _ & _ & _ & Hgate & _).
  split; [exact Hkernels|].
  apply Hgate. vm_compute. apply list_elem_of_here.
Defined.


(** X10 on the sample: one entry followed by two. *)
Lemma batch_concatenation_witness :
  applyOperations with_flip Reference () 1 (["PauliX"] ++ ["PauliX"; "RX"])
    ([[0]] ++ [[0]; [0]]) ([false] ++ [false; false]) ([[]] ++ [[]; []]) s0
  = (Thrown gate_kernel_missing, {| buffer := buffer s0; calls := 2 |}).
Proof.
  rewrite (batch_concatenation with_flip Reference () 1 ["PauliX"]
             ["PauliX"; "RX"] [[0]] [[0]; [0]] [false] [false; false]
             [[]] [[]; []] s0 eq_refl eq_refl eq_refl eq_refl eq_refl).
  vm_compute. reflexivity.
Defined.

(** X12 on the sample: three entries and two flags. *)
Lemma short_inverse_read_past_end_witness :
  applyOperations with_flip Reference () 1 ["PauliX"; "PauliX"; "PauliX"]
    [[0]; [0]; [0]] [false; false] [[]; []; []] s0
  = (Undefined, {| buffer := buffer s0; calls := 2 |}).
Proof.
  apply (proj1 (short_inverse_read_past_end with_flip Reference () 1
                  ["PauliX"; "PauliX"; "PauliX"] [[0]; [0]; [0]]
                  [false; false] [[]; []; []] s0
                  {| buffer := buffer s0; calls := 2 |}
                  eq_refl ltac:(simpl; lia)));
    [reflexivity|].
  apply (runs_upto_S _ 1 s0 {| buffer := [(0, 0); (1, 0)]%Z; calls := 1 |}).
  - apply (runs_upto_S _ 0 s0 s0); [apply runs_upto_O|].
    vm_compute. reflexivity.
  - vm_compute. reflexivity.
Defined.

(** X13 on the sample: [PauliX] is registered under [Reference] and not
    under [Vectorized]. *)
Lemma isRegistered_predicts_dispatch_witness :
  applyOperation_op with_flip Vectorized () 1 PauliX [0] false [] s0
  = (Thrown gate_kernel_missing, s0)
  ∧ ∃ func,
      gate_kernels_ with_flip !! (PauliX, Reference) = Some func
      ∧ applyOperation_op with_flip Reference () 1 PauliX [0] false [] s0
        = func () 1 [0] false [] s0.
Proof.
  split.
  - apply (proj1 (isRegistered_predicts_dispatch matrix_name with_flip
                    Vectorized () 1 s0) PauliX [0] false []).
    vm_compute. reflexivity.
  - apply (proj1 (isRegistered_predicts_dispatch matrix_name with_flip
                    Reference () 1 s0) PauliX [0] false []).
    vm_compute. reflexivity.
Defined.

(** X14 on the sample: ["RX"] is the bare name of [GeneratorRX]. *)
Lemma generator_name_dispatch_witness :
  applyGenerator_name with_scale Reference () 1 "RX" [0] false s0
  = applyGenerator with_scale Reference () 1 GeneratorRX [0] false s0
  ∧ applyGenerator_name with_scale Reference () 1 "GeneratorRX" [0] false s0
    = (Thrown out_of_range, s0).
Proof.
  split.
  - apply (proj1 (generator_name_dispatch with_scale Reference () 1 "RX" [0]
                    false s0)).
    vm_compute. reflexivity.
  - apply (proj2 (generator_name_dispatch with_scale Reference () 1
                    "GeneratorRX" [0] false s0)).
    vm_compute. reflexivity.
Defined.

(** X15 on the sample catalogue, after [late]. *)
Lemma name_and_enumerator_agree_witness :
  applyOperation (register_all late fresh) Reference () 1 "PauliX" [0] false
    [] s0
  = applyOperation_op (register_all late fresh) Reference () 1 PauliX [0]
      false [] s0
  ∧ applyGenerator_name (register_all late fresh) Reference () 1 "CRX" [0]
      false s0
    = applyGenerator (register_all late fresh) Reference () 1 GeneratorCRX
        [0] false s0.
Proof.
  destruct (name_and_enumerator_agree gate_names generator_names fresh late
              Reference () 1 [0] s0 ltac:(vm_compute; reflexivity))
    as [Hgate Hgntr].
  split.
  - apply Hgate.
    + apply (bool_decide_unpack _). vm_compute. reflexivity.
    + vm_compute. apply list_elem_of_here.
  - apply (Hgntr ltac:(apply (bool_decide_unpack _); vm_compute; reflexivity)
             GeneratorCRX "GeneratorCRX" false).
    vm_compute. apply list_elem_of_further, list_elem_of_here.
Defined.

(** X16 on the sample: the reports for one wire and for two wires
    differ. *)
Lemma matrix_report_names_operation_witness :
  (applyMatrix matrix_name fresh Reference () 2 identity2 [0] false s0).1
  = (applyMatrix matrix_name fresh Vectorized () 2 identity2 [0; 1] false s0).1
  ↔ mat_op 1 = mat_op 2.
Proof.
  apply (matrix_report_names_operation matrix_name fresh fresh Reference
           Vectorized () () 2 2 identity2 identity2 [0] [0; 1] false false
           s0 s0 matrix_name_inj);
    first [simpl; lia | vm_compute; reflexivity].
Defined.

(** X17 on the sample: an empty matrix for one wire, and two elements for
    no wire. *)
Lemma matrix_edge_cases_witness :
  applyMatrix_vec matrix_name with_stubs Reference () 1 [] [0] false s0
  = (Thrown matrix_size_mismatch, s0)
  ∧ applyMatrix_vec matrix_name with_stubs Reference () 1
      [(1, 0); (0, 0)]%Z [] false s0
    = (Thrown matrix_size_mismatch, s0).
Proof.
  destruct (matrix_edge_cases matrix_name with_stubs Reference () 1 false s0)
    as (Hempty & Hnone & _).
  split; [apply Hempty|]. apply Hnone. simpl. lia.
Defined.

End CoverageRuns.
